(** * mon: inference of hidden stats (IVs) from a creature's observed history

    A shallow embedding of [appraisal.py] and [pokemon.py].

    Python integers are [Z], Python floats are the kernel's binary64 floats
    ([PrimFloat.float]), Python sets of IVs are [gset IV], and a Python
    computation that can raise is a value of [result].  The formulas of CP
    and HP are also given over the real numbers ([R]), to be compared with
    what the floats compute. *)

From Stdlib Require Import ZArith Lia Bool List.
From Stdlib Require Import Reals Lra.
From Stdlib Require Import PrimFloat SpecFloat FloatOps.
From stdpp Require Import base decidable countable strings gmap list.

Set Warnings "-inexact-float".
Local Open Scope Z_scope.

(** ** Exceptions and the error monad *)

(** The exceptions that the modelled code can raise.  [LevelOutOfRange] is the
    error of [increment_level]; [ValueError] is what [math.sqrt] raises on a
    negative argument, what [int] raises on a NaN and what [min] and [max]
    raise on an empty sequence; [OverflowError] is raised when an integer does
    not fit a float or when [int] is given an infinity. *)
Inductive exn :=
| AttributeError
| UnboundLocalError
| NameError
| ValueError
| OverflowError
| LevelOutOfRange.

#[global] Instance exn_eq_dec : EqDecision exn.
Proof. solve_decision. Defined.

Inductive result (A : Type) :=
| Ok (a : A)
| Raise (e : exn).
Arguments Ok {A} a.
Arguments Raise {A} e.

Definition bind {A B} (m : result A) (k : A -> result B) : result B :=
  match m with
  | Ok a => k a
  | Raise e => Raise e
  end.

#[global] Instance result_eq_dec {A} `{EqDecision A} : EqDecision (result A).
Proof. solve_decision. Defined.

Definition is_ok {A} (r : result A) : bool :=
  match r with
  | Ok _ => true
  | Raise _ => false
  end.

Declare Scope result_scope.
Delimit Scope result_scope with result.
Notation "x <- m ;; k" := (bind m (fun x => k))
  (at level 100, m at next level, right associativity) : result_scope.
Local Open Scope result_scope.

(** A list comprehension [[f(x) for x in l]] whose body can raise: elements
    are visited in order and the first exception escapes. *)
Fixpoint map_result {A B} (f : A -> result B) (l : list A) : result (list B) :=
  match l with
  | [] => Ok []
  | x :: l' =>
      y <- f x ;;
      ys <- map_result f l' ;;
      Ok (y :: ys)
  end.

(** A filtering comprehension [[x for x in l if p(x)]] whose condition can
    raise. *)
Fixpoint filter_result {A} (p : A -> result bool) (l : list A) : result (list A) :=
  match l with
  | [] => Ok []
  | x :: l' =>
      b <- p x ;;
      xs <- filter_result p l' ;;
      Ok (if b then x :: xs else xs)
  end.

(** A [for] loop threading a state through a body that can raise. *)
Fixpoint for_each {S A} (body : S -> A -> result S) (l : list A) (s : S) : result S :=
  match l with
  | [] => Ok s
  | x :: l' =>
      s' <- body s x ;;
      for_each body l' s'
  end.

(** The exceptions of float arithmetic. *)
Definition arith_error (e : exn) : Prop := e = ValueError \/ e = OverflowError.

(** The exceptions of reading a variable that has not been assigned. *)
Definition unbound_error (e : exn) : Prop := e = UnboundLocalError \/ e = NameError.

(** ** Python floats *)

(** Conversion of an [int] to a [float]: rounded to nearest-even,
    [OverflowError] when the integer is too large. *)
Definition float_of_int (z : Z) : result float :=
  let f := SF2Prim (binary_normalize prec emax z 0 false) in
  if is_infinity f then Raise OverflowError else Ok f.

(** [math.sqrt] on a float: [ValueError] on a negative argument. *)
Definition math_sqrt (x : float) : result float :=
  if (x <? 0)%float then Raise ValueError else Ok (PrimFloat.sqrt x).

(** [math.sqrt] on an [int]: the argument is converted first. *)
Definition math_sqrt_int (z : Z) : result float :=
  x <- float_of_int z ;;
  math_sqrt x.

(** The signed integer mantissa [sm] of a finite float [sm * 2^e]. *)
Definition signed_mantissa (s : bool) (m : positive) : Z :=
  if s then Z.neg m else Z.pos m.

(** [int(x)]: truncation toward zero; [ValueError] on a NaN and
    [OverflowError] on an infinity. *)
Definition int_of_float (x : float) : result Z :=
  match Prim2SF x with
  | S754_nan => Raise ValueError
  | S754_infinity _ => Raise OverflowError
  | S754_zero _ => Ok 0
  | S754_finite s m e =>
      if 0 <=? e then Ok (signed_mantissa s m * 2 ^ e)
      else Ok (signed_mantissa s m ÷ 2 ^ (- e))
  end.

(** The mathematical floor of a float, with the same failures as [int] on
    NaN and infinities.  This is the word "floor" of the formulas, to be
    compared with [int_of_float]. *)
Definition floor_of_float (x : float) : result Z :=
  match Prim2SF x with
  | S754_nan => Raise ValueError
  | S754_infinity _ => Raise OverflowError
  | S754_zero _ => Ok 0
  | S754_finite s m e =>
      if 0 <=? e then Ok (signed_mantissa s m * 2 ^ e)
      else Ok (signed_mantissa s m / 2 ^ (- e))
  end.

(** The float nearest to an integer (ties to even); an infinity when the
    integer is too large. *)
Definition binary64_of_Z (z : Z) : float :=
  SF2Prim (binary_normalize prec emax z 0 false).

(** The real number that a finite float stands for; zero is given to the
    infinities and to NaN, which are no numbers. *)
Definition R_of_float (x : float) : R :=
  match Prim2SF x with
  | S754_finite s m e =>
      if 0 <=? e then IZR (signed_mantissa s m * 2 ^ e)
      else (IZR (signed_mantissa s m) / IZR (2 ^ (- e)))%R
  | _ => 0%R
  end.

(** A finite float as a fraction [p / q] of two integers, with [q > 0]. *)
Definition fraction_of_float (x : float) : option (Z * Z) :=
  match Prim2SF x with
  | S754_zero _ => Some (0, 1)
  | S754_finite s m e =>
      if 0 <=? e then Some (signed_mantissa s m * 2 ^ e, 1)
      else Some (signed_mantissa s m, 2 ^ (- e))
  | _ => None
  end.

(** [n] is the floor of the real number [x], raised to a minimum of 10. *)
Definition floor_at_least_10 (x : R) (n : Z) : Prop :=
  exists m : Z, (IZR m <= x < IZR m + 1)%R /\ n = Z.max m 10.

(** [x > y] on floats. *)
Definition float_gtb (x y : float) : bool := (y <? x)%float.

(** ** The [iv] and [species] modules *)

(** Modelled from the spec: the module [species] is missing from the sources;
    a species is a static record of its base attack, defense and stamina
    ([species.att], [species.dfn], [species.sta] in [calc_cp] and [calc_hp]). *)
Record Species := mkSpecies {
  base_att : Z;
  base_dfn : Z;
  base_sta : Z
}.

(** Modelled from the spec: the module [iv] is missing from the sources; an
    IV is a triple of hidden stats ([iv.att], [iv.dfn], [iv.sta]) with a level
    index. *)
Record IV := mkIV {
  level : Z;
  att : Z;
  dfn : Z;
  sta : Z
}.

#[global] Instance IV_eq_dec : EqDecision IV.
Proof. solve_decision. Defined.

#[global] Instance IV_countable : Countable IV.
Proof.
  refine (inj_countable'
            (fun iv => (level iv, att iv, dfn iv, sta iv))
            (fun '(l, a, d, s) => mkIV l a d s) _).
  by intros [].
Defined.

(** Modelled from the spec: the largest value of a hidden stat. *)
Definition MAX_IV : Z := 15.

(** The invariant of an IV: every stat lies in [[0, MAX_IV]]. *)
Definition iv_wf (iv : IV) : Prop :=
  0 <= att iv <= MAX_IV /\ 0 <= dfn iv <= MAX_IV /\ 0 <= sta iv <= MAX_IV.

(** The sum of the three stats. *)
Definition stat_sum (iv : IV) : Z := att iv + dfn iv + sta iv.

(** The external stat-growth data, a parameter of the inference: the CP
    multiplier of a level index, the largest modelled level index, and the
    level indices a fresh capture can have for a dust cost (with or without
    half levels). *)
Record StatGrowthTable := mkTable {
  cp_multiplier : Z -> float;
  max_level : Z;
  reachable_levels : Z -> bool -> list Z
}.

(** Modelled from the spec: [iv.percentage] is missing from the sources; the
    overall quality percentage is [(att+dfn+sta) / (3*MAX_IV) * 100]. *)
Definition percentage_of_sum (s : Z) : float :=
  (SF2Prim (binary_normalize prec emax s 0 false)
   / SF2Prim (binary_normalize prec emax (3 * MAX_IV) 0 false)
   * 100)%float.

(** Modelled from the spec: [iv.percentage], the overall quality percentage
    of an IV. *)
Definition percentage (iv : IV) : float :=
  percentage_of_sum (stat_sum iv).

(** ** appraisal.py *)

(** The members of the enumeration [OverallAppraisal].  Names that share a
    value are aliases of one member, as in a Python [Enum]. *)
Module OverallAppraisal.
Inductive t := wonder | attention | average | likely.
Definition amazes := wonder.
Definition best := wonder.
Definition strong := attention.
Definition decent := average.
Definition like := likely.
Definition room := likely.
End OverallAppraisal.

Definition OVERALL_APPRAISAL_MINIMUM_PERCENTS (o : OverallAppraisal.t) : float :=
  match o with
  | OverallAppraisal.wonder => 82.2
  | OverallAppraisal.attention => 66.7
  | OverallAppraisal.average => 51.1
  | OverallAppraisal.likely => 0.0
  end%float.

Definition OVERALL_APPRAISAL_MAXIMUM_PERCENTS (o : OverallAppraisal.t) : float :=
  match o with
  | OverallAppraisal.wonder => 100.0
  | OverallAppraisal.attention => 80.0
  | OverallAppraisal.average => 64.4
  | OverallAppraisal.likely => 48.9
  end%float.

(** The members of the enumeration [TopIV]. *)
Module TopIV.
Inductive t := exceed | impressed | trending | norm.
Definition blown := exceed.
Definition best := exceed.
Definition excellent := impressed.
Definition strong := impressed.
Definition job := trending.
Definition good := trending.
Definition point := norm.
Definition basic := norm.
End TopIV.

Definition IV_APPRAISAL_MINIMUM_VALUE (t : TopIV.t) : Z :=
  match t with
  | TopIV.exceed => 15
  | TopIV.impressed => 13
  | TopIV.trending => 8
  | TopIV.norm => 0
  end.

Definition IV_APPRAISAL_MAXIMUM_VALUE (t : TopIV.t) : Z :=
  match t with
  | TopIV.exceed => 15
  | TopIV.impressed => 14
  | TopIV.trending => 12
  | TopIV.norm => 7
  end.

(** The named tuple [Appraisal], fields in their declared order. *)
Record Appraisal := mkAppraisal {
  overall : OverallAppraisal.t;
  top_att : bool;
  top_dfn : bool;
  top_hp : bool;
  top_iv : TopIV.t
}.

(** [max(iv.att, iv.dfn, iv.sta)]. *)
Definition top_stat (iv : IV) : Z := Z.max (Z.max (att iv) (dfn iv)) (sta iv).

(** [Appraisal.valid_iv]: a chain of early [return False]. *)
Definition valid_iv (self : Appraisal) (iv : IV) : bool :=
  if (percentage iv <? OVERALL_APPRAISAL_MINIMUM_PERCENTS (overall self))%float
  then false
  else if float_gtb (percentage iv) (OVERALL_APPRAISAL_MAXIMUM_PERCENTS (overall self))
  then false
  else
    let top := top_stat iv in
    if top <? IV_APPRAISAL_MINIMUM_VALUE (top_iv self) then false
    else if top >? IV_APPRAISAL_MAXIMUM_VALUE (top_iv self) then false
    else if top_att self && negb (top =? att iv) then false
    else if negb (top_att self) && (top =? att iv) then false
    else if top_dfn self && negb (top =? dfn iv) then false
    else if negb (top_dfn self) && (top =? dfn iv) then false
    else if top_hp self && negb (top =? sta iv) then false
    else if negb (top_hp self) && (top =? sta iv) then false
    else true.

(** The three stats, to speak of each stat and of its flag in an appraisal;
    the flag of the stamina is the field [top_hp]. *)
Inductive Stat := Att | Dfn | Sta.

Definition stat_value (iv : IV) (s : Stat) : Z :=
  match s with
  | Att => att iv
  | Dfn => dfn iv
  | Sta => sta iv
  end.

Definition stat_flag (a : Appraisal) (s : Stat) : bool :=
  match s with
  | Att => top_att a
  | Dfn => top_dfn a
  | Sta => top_hp a
  end.

(** A float lies in the closed interval [[lo, hi]]. *)
Definition float_between (lo hi x : float) : Prop :=
  (lo <=? x)%float = true /\ (x <=? hi)%float = true.

(** The overall quality percentage of a candidate lies in the closed interval
    of the appraisal's overall band. *)
Definition in_overall_band (a : Appraisal) (iv : IV) : Prop :=
  float_between (OVERALL_APPRAISAL_MINIMUM_PERCENTS (overall a))
                (OVERALL_APPRAISAL_MAXIMUM_PERCENTS (overall a))
                (percentage iv).

(** The largest stat of a candidate lies in the closed interval of the
    appraisal's dominant-stat band. *)
Definition in_top_band (a : Appraisal) (iv : IV) : Prop :=
  IV_APPRAISAL_MINIMUM_VALUE (top_iv a) <= top_stat iv
  <= IV_APPRAISAL_MAXIMUM_VALUE (top_iv a).

(** On the percentages of two sums, the float comparisons agree with the
    comparisons of the sums. *)
Definition order_agrees (s1 s2 : Z) : bool :=
  eqb (percentage_of_sum s1 <? percentage_of_sum s2)%float (s1 <? s2)
  && eqb (percentage_of_sum s1 <=? percentage_of_sum s2)%float (s1 <=? s2).

(** On a percentage [p] and an overall band, the two comparisons of
    [valid_iv] agree with membership in the closed interval. *)
Definition band_agrees (p : float) (o : OverallAppraisal.t) : bool :=
  eqb (p <? OVERALL_APPRAISAL_MINIMUM_PERCENTS o)%float
      (negb (OVERALL_APPRAISAL_MINIMUM_PERCENTS o <=? p)%float)
  && eqb (float_gtb p (OVERALL_APPRAISAL_MAXIMUM_PERCENTS o))
         (negb (p <=? OVERALL_APPRAISAL_MAXIMUM_PERCENTS o)%float).

(** ** pokemon.py: snapshots *)

Inductive Snapshot :=
| StartSnapshot (species : Species) (cp hp dust : Z) (half_levels : bool)
| PowerUpSnapshot (cp hp dust power_ups : Z)
| EvolutionSnapshot (species : Species) (cp hp dust power_ups : Z).

(** [snapshot.species]: a [PowerUpSnapshot] has no such attribute. *)
Definition snapshot_species (s : Snapshot) : result Species :=
  match s with
  | StartSnapshot sp _ _ _ _ => Ok sp
  | PowerUpSnapshot _ _ _ _ => Raise AttributeError
  | EvolutionSnapshot sp _ _ _ _ => Ok sp
  end.

Definition snapshot_cp (s : Snapshot) : Z :=
  match s with
  | StartSnapshot _ cp _ _ _ => cp
  | PowerUpSnapshot cp _ _ _ => cp
  | EvolutionSnapshot _ cp _ _ _ => cp
  end.

Definition snapshot_hp (s : Snapshot) : Z :=
  match s with
  | StartSnapshot _ _ hp _ _ => hp
  | PowerUpSnapshot _ hp _ _ => hp
  | EvolutionSnapshot _ _ hp _ _ => hp
  end.

(** [isinstance(snapshot, StartSnapshot)]. *)
Definition is_start (s : Snapshot) : bool :=
  match s with
  | StartSnapshot _ _ _ _ _ => true
  | _ => false
  end.

(** [snapshot.power_ups], the number of growth steps of an event; a
    [StartSnapshot] has no such attribute. *)
Definition snapshot_power_ups (s : Snapshot) : result Z :=
  match s with
  | StartSnapshot _ _ _ _ _ => Raise AttributeError
  | PowerUpSnapshot _ _ _ power_ups => Ok power_ups
  | EvolutionSnapshot _ _ _ _ power_ups => Ok power_ups
  end.

(** A timeline: a [StartSnapshot] followed by power-ups and evolutions only
    (what [Pokemon.new], [power_up] and [evolve] build). *)
Definition is_timeline (l : list Snapshot) : Prop :=
  match l with
  | [] => False
  | s :: rest => is_start s = true /\ Forall (fun e => is_start e = false) rest
  end.

(** ** pokemon.py: the class [Pokemon] *)

Record Pokemon := mkPokemon {
  snapshots : list Snapshot;
  appraisal : option Appraisal;
  nickname : option string
}.

(** [Pokemon.new]. *)
Definition new (species : Species) (cp hp dust : Z) (name : option string)
    (half_levels : bool) : Pokemon :=
  mkPokemon [StartSnapshot species cp hp dust half_levels] None name.

(** [Pokemon.power_up]: appends to [self.snapshots]. *)
Definition power_up (self : Pokemon) (cp hp dust power_ups : Z) : Pokemon :=
  mkPokemon (snapshots self ++ [PowerUpSnapshot cp hp dust power_ups])
            (appraisal self) (nickname self).

(** [Pokemon.evolve]. *)
Definition evolve (self : Pokemon) (species : Species) (cp hp dust power_ups : Z)
    : Pokemon :=
  mkPokemon (snapshots self ++ [EvolutionSnapshot species cp hp dust power_ups])
            (appraisal self) (nickname self).

(** [Pokemon.appraise]: the parameters are named
    [(overall, top_hp, top_att, top_dfn, top_iv)] and are passed to the
    constructor of [Appraisal] positionally, in that order. *)
Definition appraise (self : Pokemon) (overall : OverallAppraisal.t)
    (top_hp top_att top_dfn : bool) (top_iv : TopIV.t) : Pokemon :=
  mkPokemon (snapshots self)
            (Some (mkAppraisal overall top_hp top_att top_dfn top_iv))
            (nickname self).

(** The property [Pokemon.species]: the species of the last snapshot that has
    one; [None] when no snapshot has. *)
Fixpoint first_species (l : list Snapshot) : option Species :=
  match l with
  | [] => None
  | s :: l' =>
      match snapshot_species s with
      | Ok sp => Some sp
      | Raise _ => first_species l'
      end
  end.

Definition species (self : Pokemon) : option Species :=
  first_species (rev (snapshots self)).

(** ** The inference, over a stat-growth table *)

Section Inference.

Variable tbl : StatGrowthTable.

(** The values a hidden stat can take: [0, 1, ..., MAX_IV]. *)
Definition stat_values : list Z := seqZ 0 (MAX_IV + 1).

(** Modelled from the spec: [iv.IV.possible_ivs] is missing from the sources;
    it returns every IV whose level index is reachable from a fresh capture at
    the given dust cost, crossed with every (att, dfn, sta) in [0,15]^3. *)
Definition possible_ivs_list (dust : Z) (half_levels : bool) : list IV :=
  l ← reachable_levels tbl dust half_levels;
  a ← stat_values;
  d ← stat_values;
  s ← stat_values;
  [mkIV l a d s].

Definition possible_ivs (dust : Z) (half_levels : bool) : gset IV :=
  list_to_set (possible_ivs_list dust half_levels).

(** Modelled from the spec: [IV.increment_level] is missing from the sources;
    it returns the IV with the same stats and the level index advanced by
    [power_ups] increments, and fails with an out-of-range error if the
    resulting level exceeds the maximum modelled level. *)
Definition increment_level (self : IV) (power_ups : Z) : result IV :=
  let l := level self + power_ups in
  if max_level tbl <? l then Raise LevelOutOfRange
  else Ok (mkIV l (att self) (dfn self) (sta self)).

(** Modelled from the spec: [iv.cp_scalar] is missing from the sources; it is
    the CP multiplier of the IV's level index. *)
Definition cp_scalar (iv : IV) : float := cp_multiplier tbl (level iv).

(** [Pokemon.calc_cp].  The operands are evaluated left to right; an integer
    operand of a float product is converted when the product is taken. *)
Definition calc_cp (species : Species) (iv : IV) : result Z :=
  let a := base_att species + att iv in
  d <- math_sqrt_int (base_dfn species + dfn iv) ;;
  a' <- float_of_int a ;;
  s <- math_sqrt_int (base_sta species + sta iv) ;;
  cp <- int_of_float (a' * d * s * cp_scalar iv / 10)%float ;;
  Ok (Z.max cp 10).

(** [Pokemon.calc_hp]. *)
Definition calc_hp (species : Species) (iv : IV) : result Z :=
  let b := base_sta species + sta iv in
  r <- math_sqrt (cp_scalar iv) ;;
  b' <- float_of_int b ;;
  hp <- int_of_float (b' * r)%float ;;
  Ok (Z.max hp 10).

(** The CP formula evaluated in binary64 arithmetic, written with the IEEE
    operations themselves: the three sums are rounded to the nearest float,
    the two square roots, the three products and the quotient are each
    correctly rounded, and the result is floored and raised to at least 10.
    There is no value when a sum does not fit a float, when a square root is
    taken of a negative number or when the quotient is not a finite number. *)
Definition binary64_cp (species : Species) (iv : IV) : option Z :=
  let a := binary64_of_Z (base_att species + att iv) in
  let d := binary64_of_Z (base_dfn species + dfn iv) in
  let s := binary64_of_Z (base_sta species + sta iv) in
  if is_infinity a || is_infinity d || is_infinity s then None
  else if (d <? 0)%float || (s <? 0)%float then None
  else
    match floor_of_float (a * PrimFloat.sqrt d * PrimFloat.sqrt s * cp_scalar iv / 10)%float with
    | Ok n => Some (Z.max n 10)
    | Raise _ => None
    end.

(** The HP formula evaluated in binary64 arithmetic, in the same way. *)
Definition binary64_hp (species : Species) (iv : IV) : option Z :=
  let b := binary64_of_Z (base_sta species + sta iv) in
  if is_infinity b || (cp_scalar iv <? 0)%float then None
  else
    match floor_of_float (b * PrimFloat.sqrt (cp_scalar iv))%float with
    | Ok n => Some (Z.max n 10)
    | Raise _ => None
    end.

(** The value of the CP formula of the specification, over the real
    numbers: the multiplier is the number that the table stores, and the
    square roots and the products are exact. *)
Definition exact_cp_value (species : Species) (iv : IV) : R :=
  (IZR (base_att species + att iv)
   * R_sqrt.sqrt (IZR (base_dfn species + dfn iv))
   * R_sqrt.sqrt (IZR (base_sta species + sta iv))
   * R_of_float (cp_scalar iv) / 10)%R.

(** The value of the HP formula of the specification, over the real numbers. *)
Definition exact_hp_value (species : Species) (iv : IV) : R :=
  (IZR (base_sta species + sta iv) * R_sqrt.sqrt (R_of_float (cp_scalar iv)))%R.

(** The CP of the specification: the floor of the exact value, raised to a
    minimum of 10. *)
Definition exact_cp (species : Species) (iv : IV) (n : Z) : Prop :=
  floor_at_least_10 (exact_cp_value species iv) n.

(** The HP of the specification. *)
Definition exact_hp (species : Species) (iv : IV) (n : Z) : Prop :=
  floor_at_least_10 (exact_hp_value species iv) n.

(** A test over the integers that [n] is the CP of the specification: with
    the multiplier [p / q], the square of [10 * q] times the exact value is
    the integer [A * A * D * S * (p * p)], which is compared with the squares
    of [10 * q * n] and of [10 * q * (n + 1)]; the lower bound is not needed
    when [n] is the minimum 10. *)
Definition exact_cp_check (species : Species) (iv : IV) (n : Z) : bool :=
  let A := base_att species + att iv in
  let D := base_dfn species + dfn iv in
  let S := base_sta species + sta iv in
  match fraction_of_float (cp_scalar iv) with
  | Some (p, q) =>
      let v := A * A * D * S * (p * p) in
      (0 <=? A) && (0 <=? D) && (0 <=? S) && (0 <=? p) && (0 <? q) && (10 <=? n)
      && (v <? (10 * q * (n + 1)) * (10 * q * (n + 1)))
      && (if 10 <? n then (10 * q * n) * (10 * q * n) <=? v else true)
  | None => false
  end.

(** The same test for the HP: the square of the exact value times [q] is
    the integer [B * B * p]. *)
Definition exact_hp_check (species : Species) (iv : IV) (n : Z) : bool :=
  let B := base_sta species + sta iv in
  match fraction_of_float (cp_scalar iv) with
  | Some (p, q) =>
      (0 <=? B) && (0 <=? p) && (0 <? q) && (10 <=? n)
      && (B * B * p <? (n + 1) * (n + 1) * q)
      && (if 10 <? n then n * n * q <=? B * B * p else true)
  | None => false
  end.

(** Both simulations return, and return the values of the specification. *)
Definition simulation_is_exact (species : Species) (iv : IV) : bool :=
  match calc_cp species iv, calc_hp species iv with
  | Ok c, Ok h => exact_cp_check species iv c && exact_hp_check species iv h
  | _, _ => false
  end.

(** The local variables of [calc_ivs]; [None] is a variable that has not been
    assigned yet. *)
Record Locals := mkLocals {
  l_species : option Species;
  l_possible_ivs : option (gset IV)
}.

(** Reading a local variable of the function. *)
Definition read_local {A} (v : option A) : result A :=
  match v with
  | Some a => Ok a
  | None => Raise UnboundLocalError
  end.

(** Reading, inside a comprehension, a variable of the enclosing function. *)
Definition read_free {A} (v : option A) : result A :=
  match v with
  | Some a => Ok a
  | None => Raise NameError
  end.

(** A set comprehension [{f(x) for x in X}] whose body can raise. *)
Definition set_map_result (f : IV -> result IV) (X : gset IV) : result (gset IV) :=
  l <- map_result f (elements X) ;;
  Ok (list_to_set l).

(** A set comprehension [{x for x in X if p(x)}] whose condition can raise. *)
Definition set_filter_result (p : IV -> result bool) (X : gset IV) : result (gset IV) :=
  l <- filter_result p (elements X) ;;
  Ok (list_to_set l).

(** The condition of the comprehension of lines 213-215:
    [calc_cp(species, iv) == snapshot.cp and calc_hp(species, iv) == snapshot.hp];
    [and] does not evaluate its right operand when the left one is false. *)
Definition matches (species : option Species) (cp hp : Z) (iv : IV) : result bool :=
  sp <- read_free species ;;
  c <- calc_cp sp iv ;;
  if c =? cp then
    h <- calc_hp sp iv ;;
    Ok (h =? hp)
  else Ok false.

(** The observation filter, lines 213-215. *)
Definition observation_filter (species : option Species) (cp hp : Z) (X : gset IV)
    : result (gset IV) :=
  set_filter_result (matches species cp hp) X.

(** Lines 206-211: the candidates before the observation filter. *)
Definition next_candidates (st : Locals) (snapshot : Snapshot) : result (gset IV) :=
  match snapshot with
  | StartSnapshot _ _ _ dust half_levels => Ok (possible_ivs dust half_levels)
  | PowerUpSnapshot _ _ _ power_ups
  | EvolutionSnapshot _ _ _ _ power_ups =>
      X <- read_local (l_possible_ivs st) ;;
      set_map_result (fun iv => increment_level iv power_ups) X
  end.

(** The species after the [try] of lines 198-204. *)
Definition next_species (st : Locals) (snapshot : Snapshot) : option Species :=
  match snapshot_species snapshot with
  | Ok sp => Some sp
  | Raise _ => l_species st
  end.

(** One iteration of the loop of [calc_ivs], lines 197-215. *)
Definition loop_body (st : Locals) (snapshot : Snapshot) : result Locals :=
  let species := next_species st snapshot in
  X <- next_candidates st snapshot ;;
  X' <- observation_filter species (snapshot_cp snapshot) (snapshot_hp snapshot) X ;;
  Ok (mkLocals species (Some X')).

(** The number of candidates held by the local [possible_ivs]. *)
Definition candidate_count (st : Locals) : nat :=
  match l_possible_ivs st with
  | Some X => size X
  | None => 0%nat
  end.

(** Both locals of [calc_ivs] have been assigned. *)
Definition all_bound (st : Locals) : Prop :=
  is_Some (l_species st) /\ is_Some (l_possible_ivs st).

(** Every candidate held by the local [possible_ivs] satisfies the invariant
    of IVs. *)
Definition candidates_wf (st : Locals) : Prop :=
  forall X, l_possible_ivs st = Some X -> forall iv, iv ∈ X -> iv_wf iv.

(** The whole loop, from the state in which no local is assigned. *)
Definition run_snapshots (l : list Snapshot) : result Locals :=
  for_each loop_body l (mkLocals None None).

(** Lines 217-219: the appraisal filter. *)
Definition appraisal_filter (a : option Appraisal) (st : Locals) : result Locals :=
  match a with
  | Some a =>
      X <- read_local (l_possible_ivs st) ;;
      Ok (mkLocals (l_species st) (Some (filter (fun iv => valid_iv a iv = true) X)))
  | None => Ok st
  end.

(** [Pokemon.calc_ivs]. *)
Definition calc_ivs (self : Pokemon) : result (gset IV) :=
  st <- run_snapshots (snapshots self) ;;
  st' <- appraisal_filter (appraisal self) st ;;
  read_local (l_possible_ivs st').

(** [min] over a sequence of floats: [ValueError] when it is empty; otherwise
    the running minimum is replaced by an item that is smaller. *)
Definition py_min (l : list float) : result float :=
  match l with
  | [] => Raise ValueError
  | x :: l' => Ok (fold_left (fun cur item => if (item <? cur)%float then item else cur) l' x)
  end.

(** [max] over a sequence of floats. *)
Definition py_max (l : list float) : result float :=
  match l with
  | [] => Raise ValueError
  | x :: l' => Ok (fold_left (fun cur item => if float_gtb item cur then item else cur) l' x)
  end.

(** [Pokemon.percentage_range]. *)
Definition percentage_range (self : Pokemon) : result (float * float) :=
  ivs <- calc_ivs self ;;
  minimum <- py_min (map percentage (elements ivs)) ;;
  maximum <- py_max (map percentage (elements ivs)) ;;
  Ok (minimum, maximum).

End Inference.

(** ** Example data *)

(** The CP scalars of the first five level indices (levels 1, 1.5, 2, 2.5
    and 3), with the dust cost 200 giving levels 1 and 2 and, with half
    levels, 1.5 and 2.5 as well. *)
Definition example_table : StatGrowthTable :=
  mkTable
    (fun l =>
       match l with
       | 1 => 0.008836
       | 2 => 0.018262126
       | 3 => 0.027688251
       | 4 => 0.037114377
       | 5 => 0.046540499
       | _ => 0
       end%float)
    5
    (fun dust half_levels =>
       match dust with
       | 200 => if half_levels then [1; 2; 3; 4] else [1; 3]
       | _ => []
       end).

(** A table whose multiplier is 1 at every level, with the single level 1. *)
Definition unit_table : StatGrowthTable :=
  mkTable (fun _ => 1%float) 1 (fun _ _ => [1]).

(** A species whose defense and stamina are both 12, so that the product of
    the two square roots of the CP formula is the integer 12. *)
Definition twelves : Species := mkSpecies 250 12 12.

Definition bulbasaur : Species := mkSpecies 118 111 128.
Definition ivysaur : Species := mkSpecies 151 143 155.

Definition magikarp : Species := mkSpecies 29 102 40.

(** Every IV whose level index is in the given list. *)
Definition ivs_at (levels : list Z) : list IV :=
  l ← levels;
  a ← seqZ 0 (MAX_IV + 1);
  d ← seqZ 0 (MAX_IV + 1);
  s ← seqZ 0 (MAX_IV + 1);
  [mkIV l a d s].

(** The species and the level indices of the example data. *)
Definition example_species_list : list Species := [bulbasaur; ivysaur; magikarp].
Definition example_levels : list Z := [1; 2; 3; 4; 5].

Definition perfect_iv : IV := mkIV 1 15 15 15.
Definition perfect_appraisal : Appraisal :=
  mkAppraisal OverallAppraisal.wonder true true true TopIV.exceed.

(** A Bulbasaur caught with CP 12 and HP 13 at a dust cost of 200. *)
Definition caught : Pokemon := new bulbasaur 12 13 200 None false.

(** The candidates left by that capture. *)
Definition caught_candidates : gset IV :=
  list_to_set [mkIV 1 0 0 11; mkIV 1 0 0 12].

Definition caught_state : Locals :=
  mkLocals (Some bulbasaur) (Some caught_candidates).

(** The same creature evolved, and then powered up by two steps. *)
Definition evolved : Pokemon := evolve caught ivysaur 20 15 600 0.
Definition evolved_powered : Pokemon := power_up evolved 64 27 200 2.

(** A capture whose observed CP is below the least CP that [calc_cp] returns. *)
Definition impossible : Pokemon := new bulbasaur 5 13 200 None false.

(** A Magikarp at the floor values, powered up by three steps. *)
Definition weak : Pokemon := new magikarp 10 10 200 None false.
Definition weak_powered : Pokemon := power_up weak 10 10 400 3.

(** The candidates left by the capture of the Magikarp. *)
Definition weak_candidates : gset IV :=
  filter (fun iv => matches example_table (Some magikarp) 10 10 iv = Ok true)
         (possible_ivs example_table 200 false).

Definition weak_state : Locals := mkLocals (Some magikarp) (Some weak_candidates).

(** The capture above with an appraisal that no candidate satisfies. *)
Definition appraised : Pokemon :=
  appraise caught OverallAppraisal.wonder true false false TopIV.exceed.

Definition evolved_state : Locals :=
  mkLocals (Some ivysaur) (Some caught_candidates).

(** ** Which appraisals accept a candidate *)

#[global] Instance OverallAppraisal_eq_dec : EqDecision OverallAppraisal.t.
Proof. solve_decision. Defined.

#[global] Instance TopIV_eq_dec : EqDecision TopIV.t.
Proof. solve_decision. Defined.

(** The two percentage checks of [valid_iv] (lines 95-98) pass for the overall
    band [o] on a candidate whose stats sum to [s]. *)
Definition overall_accepts (o : OverallAppraisal.t) (s : Z) : bool :=
  negb (percentage_of_sum s <? OVERALL_APPRAISAL_MINIMUM_PERCENTS o)%float
  && negb (float_gtb (percentage_of_sum s) (OVERALL_APPRAISAL_MAXIMUM_PERCENTS o)).

(** The two checks on the largest stat (lines 102-105) pass for the band [t]. *)
Definition top_accepts (t : TopIV.t) (top : Z) : bool :=
  negb (top <? IV_APPRAISAL_MINIMUM_VALUE t)
  && negb (top >? IV_APPRAISAL_MAXIMUM_VALUE t).

Definition all_overall : list OverallAppraisal.t :=
  [OverallAppraisal.wonder; OverallAppraisal.attention;
   OverallAppraisal.average; OverallAppraisal.likely].

Definition all_top_iv : list TopIV.t :=
  [TopIV.exceed; TopIV.impressed; TopIV.trending; TopIV.norm].

(** The overall bands that accept a sum of stats. *)
Definition overall_bands_of (s : Z) : list OverallAppraisal.t :=
  List.filter (fun o => overall_accepts o s) all_overall.

(** The dominant-stat bands that accept a largest stat. *)
Definition top_bands_of (top : Z) : list TopIV.t :=
  List.filter (fun t => top_accepts t top) all_top_iv.

(** No two distinct overall bands accept the sum [s]. *)
Definition overall_bands_disjoint_at (s : Z) : bool :=
  forallb (fun o =>
             forallb (fun o' =>
                        implb (overall_accepts o s && overall_accepts o' s)
                              (bool_decide (o = o')))
                     all_overall)
          all_overall.

(** Some overall band accepts the sum [s], unless [s] is 29 or 30. *)
Definition overall_band_exists_at (s : Z) : bool :=
  if (s =? 29) || (s =? 30)
  then forallb (fun o => negb (overall_accepts o s)) all_overall
  else existsb (fun o => overall_accepts o s) all_overall.

(** A candidate whose stats sum to 29. *)
Definition gap_iv : IV := mkIV 1 10 10 9.

(** ** The rest of the class [Pokemon] *)

(** [Pokemon.rename]; the new name may be [None]. *)
Definition rename (self : Pokemon) (name : option string) : Pokemon :=
  mkPokemon (snapshots self) (appraisal self) name.

(** The records that the methods of the class build: [new], then any number
    of [power_up], [evolve], [appraise] and [rename]. *)
Inductive api_built : Pokemon -> Prop :=
| built_new species cp hp dust name half_levels :
    api_built (new species cp hp dust name half_levels)
| built_power_up self cp hp dust power_ups :
    api_built self -> api_built (power_up self cp hp dust power_ups)
| built_evolve self species cp hp dust power_ups :
    api_built self -> api_built (evolve self species cp hp dust power_ups)
| built_appraise self overall top_hp top_att top_dfn top_iv :
    api_built self -> api_built (appraise self overall top_hp top_att top_dfn top_iv)
| built_rename self name :
    api_built self -> api_built (rename self name).

(** In the loop of [calc_ivs], whenever the candidates are assigned the
    species is assigned too. *)
Definition species_bound_with_candidates (st : Locals) : Prop :=
  is_Some (l_possible_ivs st) -> is_Some (l_species st).

(** The exceptions that [calc_ivs] can raise. *)
Definition calc_ivs_error (e : exn) : Prop :=
  e = UnboundLocalError \/ e = ValueError \/ e = OverflowError \/ e = LevelOutOfRange.

(** Two captures in one list of snapshots. *)
Definition recaught : Pokemon :=
  mkPokemon (snapshots caught ++ snapshots impossible) None None.

(** ** Accessors and serialisation *)

(** The exceptions of the accessors and of the JSON functions: a missing key
    or an unknown species, an unhashable key, an index into an empty list,
    and an attribute of [None]. *)
Module Py.
Inductive exn := KeyError | TypeError | IndexError | AttributeError.
End Py.

#[global] Instance Py_exn_eq_dec : EqDecision Py.exn.
Proof. solve_decision. Defined.

Inductive outcome (A : Type) :=
| Return (a : A)
| Throw (e : Py.exn).
Arguments Return {A} a.
Arguments Throw {A} e.

Definition and_then {A B} (m : outcome A) (k : A -> outcome B) : outcome B :=
  match m with
  | Return a => k a
  | Throw e => Throw e
  end.

Declare Scope outcome_scope.
Delimit Scope outcome_scope with outcome.
Notation "x <~ m ;; k" := (and_then m (fun x => k))
  (at level 100, m at next level, right associativity) : outcome_scope.
Local Open Scope outcome_scope.

Set Warnings "-register-all".

(** A JSON value as Python holds it after parsing. *)
Inductive json :=
| JNone
| JBool (b : bool)
| JInt (z : Z)
| JFloat (f : float)
| JStr (s : string)
| JList (l : list json)
| JDict (d : gmap string json).

(** [isinstance(v, int)]: a [bool] is an [int] in Python. *)
Definition isinstance_int (v : json) : bool :=
  match v with
  | JInt _ | JBool _ => true
  | _ => false
  end.

(** [isinstance(v, bool)]. *)
Definition isinstance_bool (v : json) : bool :=
  match v with
  | JBool _ => true
  | _ => false
  end.

(** Lists and dictionaries cannot be hashed. *)
Definition unhashable (v : json) : bool :=
  match v with
  | JList _ | JDict _ => true
  | _ => false
  end.

(** [key in dct]. *)
Definition has_key (dct : gmap string json) (key : string) : bool :=
  match dct !! key with
  | Some _ => true
  | None => false
  end.

(** [dct[key]]. *)
Definition getitem (dct : gmap string json) (key : string) : outcome json :=
  match dct !! key with
  | Some v => Return v
  | None => Throw Py.KeyError
  end.

(** A snapshot as Python holds it: a named tuple whose fields other than the
    species have whatever type the caller or the decoder gave them. *)
Inductive RawSnapshot :=
| RawStart (species : Species) (cp hp dust half_levels : json)
| RawPowerUp (cp hp dust power_ups : json)
| RawEvolution (species : Species) (cp hp dust power_ups : json).

(** The snapshots whose fields have the types that [calc_ivs] expects. *)
Definition raw_of (s : Snapshot) : RawSnapshot :=
  match s with
  | StartSnapshot sp cp hp dust half_levels =>
      RawStart sp (JInt cp) (JInt hp) (JInt dust) (JBool half_levels)
  | PowerUpSnapshot cp hp dust power_ups =>
      RawPowerUp (JInt cp) (JInt hp) (JInt dust) (JInt power_ups)
  | EvolutionSnapshot sp cp hp dust power_ups =>
      RawEvolution sp (JInt cp) (JInt hp) (JInt dust) (JInt power_ups)
  end.

(** Modelled from the spec: the module [species] is missing from the sources;
    [species.species] looks a species up by name, and a species has a
    [name]. *)
Record SpeciesModule := mkSpeciesModule {
  catalog : gmap string Species;
  species_name : Species -> string
}.

(** [self.snapshots[-1].cp]. *)
Definition cp (self : Pokemon) : outcome Z :=
  match last (snapshots self) with
  | Some s => Return (snapshot_cp s)
  | None => Throw Py.IndexError
  end.

(** [self.snapshots[-1].hp]. *)
Definition hp (self : Pokemon) : outcome Z :=
  match last (snapshots self) with
  | Some s => Return (snapshot_hp s)
  | None => Throw Py.IndexError
  end.

Section Serialisation.

Variable sm : SpeciesModule.

(** The property [Pokemon.name]: the nickname, or else the name of the
    species; the property [species] returns [None] when no snapshot has a
    species, and [None] has no [name]. *)
Definition name (self : Pokemon) : outcome string :=
  match nickname self with
  | Some n => Return n
  | None =>
      match species self with
      | Some sp => Return (species_name sm sp)
      | None => Throw Py.AttributeError
      end
  end.

(** [v in species.species]: hashing [v] comes first. *)
Definition in_catalog (v : json) : outcome bool :=
  match v with
  | JStr s => Return (bool_decide (is_Some (catalog sm !! s)))
  | JList _ | JDict _ => Throw Py.TypeError
  | _ => Return false
  end.

(** [species.species[v]]. *)
Definition catalog_getitem (v : json) : outcome Species :=
  match v with
  | JStr s =>
      match catalog sm !! s with
      | Some sp => Return sp
      | None => Throw Py.KeyError
      end
  | JList _ | JDict _ => Throw Py.TypeError
  | _ => Throw Py.KeyError
  end.

(** The condition of lines 23-25. *)
Definition start_shape (dct : gmap string json) : outcome bool :=
  if (size dct =? 5)%nat then
    match dct !! "Species" with
    | Some n =>
        c <~ in_catalog n ;;
        Return (c && match dct !! "Half levels" with
                     | Some v => isinstance_bool v
                     | None => false
                     end)
    | None => Return false
    end
  else Return false.

(** The condition of line 28. *)
Definition power_up_shape (dct : gmap string json) : bool :=
  (size dct =? 4)%nat
  && match dct !! "Steps" with
     | Some v => isinstance_int v
     | None => false
     end.

(** The condition of lines 31-33. *)
Definition evolution_shape (dct : gmap string json) : outcome bool :=
  if (size dct =? 5)%nat then
    match dct !! "Species" with
    | Some n =>
        c <~ in_catalog n ;;
        Return (c && match dct !! "Steps" with
                     | Some v => isinstance_int v
                     | None => false
                     end)
    | None => Return false
    end
  else Return false.

(** [Snapshot.looks_like_json_obj]. *)
Definition looks_like_json_obj (v : json) : outcome bool :=
  match v with
  | JDict dct =>
      if negb (has_key dct "CP") || negb (has_key dct "HP") || negb (has_key dct "Dust")
      then Return false
      else
        b <~ start_shape dct ;;
        if b then Return true
        else if power_up_shape dct then Return true
        else
          b' <~ evolution_shape dct ;;
          if b' then Return true else Return false
  | _ => Return false
  end.

(** [StartSnapshot.decode_from_json]. *)
Definition StartSnapshot_decode_from_json (dct : gmap string json)
    : outcome RawSnapshot :=
  n <~ getitem dct "Species" ;;
  sp <~ catalog_getitem n ;;
  cp <~ getitem dct "CP" ;;
  hp <~ getitem dct "HP" ;;
  dust <~ getitem dct "Dust" ;;
  half_levels <~ getitem dct "Half levels" ;;
  Return (RawStart sp cp hp dust half_levels).

(** [PowerUpSnapshot.decode_from_json]. *)
Definition PowerUpSnapshot_decode_from_json (dct : gmap string json)
    : outcome RawSnapshot :=
  cp <~ getitem dct "CP" ;;
  hp <~ getitem dct "HP" ;;
  dust <~ getitem dct "Dust" ;;
  steps <~ getitem dct "Steps" ;;
  Return (RawPowerUp cp hp dust steps).

(** [EvolutionSnapshot.decode_from_json]. *)
Definition EvolutionSnapshot_decode_from_json (dct : gmap string json)
    : outcome RawSnapshot :=
  n <~ getitem dct "Species" ;;
  sp <~ catalog_getitem n ;;
  cp <~ getitem dct "CP" ;;
  hp <~ getitem dct "HP" ;;
  dust <~ getitem dct "Dust" ;;
  steps <~ getitem dct "Steps" ;;
  Return (RawEvolution sp cp hp dust steps).

(** [Snapshot.decode_from_json], on a dictionary. *)
Definition decode_from_json (dct : gmap string json) : outcome RawSnapshot :=
  if has_key dct "Half levels" then StartSnapshot_decode_from_json dct
  else if has_key dct "Species" then EvolutionSnapshot_decode_from_json dct
  else PowerUpSnapshot_decode_from_json dct.

(** The three methods [encode_for_json] of the snapshots. *)
Definition encode_for_json (r : RawSnapshot) : gmap string json :=
  match r with
  | RawStart sp cp hp dust half_levels =>
      {[ "Species" := JStr (species_name sm sp); "CP" := cp; "HP" := hp;
         "Dust" := dust; "Half levels" := half_levels ]}
  | RawPowerUp cp hp dust power_ups =>
      {[ "CP" := cp; "HP" := hp; "Dust" := dust; "Steps" := power_ups ]}
  | RawEvolution sp cp hp dust power_ups =>
      {[ "Species" := JStr (species_name sm sp); "CP" := cp; "HP" := hp;
         "Dust" := dust; "Steps" := power_ups ]}
  end.

(** The species of a raw snapshot, if it has one. *)
Definition raw_species (r : RawSnapshot) : option Species :=
  match r with
  | RawStart sp _ _ _ _ => Some sp
  | RawPowerUp _ _ _ _ => None
  | RawEvolution sp _ _ _ _ => Some sp
  end.

(** The species of a snapshot is in the catalog under its own name. *)
Definition catalogued (r : RawSnapshot) : Prop :=
  forall sp, raw_species r = Some sp -> catalog sm !! species_name sm sp = Some sp.

(** Every species of the catalog is stored under its own name. *)
Definition catalog_consistent : Prop :=
  forall n sp, catalog sm !! n = Some sp -> species_name sm sp = n.

(** Iterating a JSON value: the items of a list, the keys of a dictionary,
    the characters of a string; the other values are not iterable. *)
Definition iter_json (v : json) : outcome (list json) :=
  match v with
  | JList l => Return l
  | JDict d => Return ((fun kv => JStr (fst kv)) <$> map_to_list d)
  | JStr s => Return ((fun c => JStr (String.String c String.EmptyString)) <$> String.list_ascii_of_string s)
  | _ => Throw Py.TypeError
  end.

(** [all(Snapshot.looks_like_json_obj(s) for s in l)]: stops at the first
    item that is rejected. *)
Fixpoint all_look_like (l : list json) : outcome bool :=
  match l with
  | [] => Return true
  | x :: l' =>
      b <~ looks_like_json_obj x ;;
      if b then all_look_like l' else Return false
  end.

(** [dct['Nickname'] is None or isinstance(dct['Nickname'], str)]. *)
Definition nickname_ok (n : json) : bool :=
  match n with
  | JNone | JStr _ => true
  | _ => false
  end.

(** Looking up [appraisal.Appraisal.looks_like_json_obj]: the class
    [Appraisal] of [appraisal.py] defines [valid_iv] and nothing else, so the
    attribute does not exist and the lookup raises [AttributeError]. *)
Definition Appraisal_looks_like_json_obj : outcome (json -> outcome bool) :=
  Throw Py.AttributeError.

(** The expression inside the [try] of [Pokemon.looks_like_json_dct], on a
    dictionary.  In the last conjunct the callee is evaluated before its
    argument: the method is looked up before [dct['Appraisal']] is read. *)
Definition looks_like_json_dct_body (dct : gmap string json) : outcome bool :=
  if (size dct =? 3)%nat then
    n <~ getitem dct "Nickname" ;;
    if nickname_ok n then
      snaps <~ getitem dct "Snapshots" ;;
      l <~ iter_json snaps ;;
      b <~ all_look_like l ;;
      if b then
        f <~ Appraisal_looks_like_json_obj ;;
        a <~ getitem dct "Appraisal" ;;
        f a
      else Return false
    else Return false
  else Return false.

(** [Pokemon.looks_like_json_dct]: a [KeyError] is turned into [False]; every
    other exception escapes. *)
Definition looks_like_json_dct (dct : gmap string json) : outcome bool :=
  match looks_like_json_dct_body dct with
  | Throw Py.KeyError => Return false
  | r => r
  end.

End Serialisation.

#[global] Instance Species_eq_dec : EqDecision Species.
Proof. solve_decision. Defined.

(** A catalog of the three example species. *)
Definition example_species : SpeciesModule :=
  mkSpeciesModule
    {[ "Bulbasaur" := bulbasaur; "Ivysaur" := ivysaur; "Magikarp" := magikarp ]}
    (fun sp =>
       if decide (sp = bulbasaur) then "Bulbasaur"
       else if decide (sp = ivysaur) then "Ivysaur"
       else "Magikarp").

(** A dictionary for a power-up whose step count is the Boolean [True]. *)
Definition boolean_steps : gmap string json :=
  {[ "CP" := JInt 64; "HP" := JInt 27; "Dust" := JInt 200; "Steps" := JBool true ]}.

(** A dictionary of five entries whose species is a list. *)
Definition list_species : gmap string json :=
  {[ "Species" := JList []; "CP" := JInt 12; "HP" := JInt 13; "Dust" := JInt 200;
     "Half levels" := JBool false ]}.

(** The keys that the snapshot dictionaries use. *)
Definition known_keys : list string :=
  ["Species"; "CP"; "HP"; "Dust"; "Half levels"; "Steps"]%string.

(** A document whose second snapshot has a list as species. *)
Definition bad_document : gmap string json :=
  {[ "Nickname" := JNone;
     "Snapshots" := JList [JDict boolean_steps; JDict list_species];
     "Appraisal" := JNone ]}.

(** A document with no snapshot and no appraisal, as [Pokemon.encode_for_json]
    writes it for a record that has neither. *)
Definition empty_document : gmap string json :=
  {[ "Nickname" := JNone; "Snapshots" := JList []; "Appraisal" := JNone ]}.

(** A document without the key Appraisal, padded to three entries. *)
Definition no_appraisal_document : gmap string json :=
  {[ "Nickname" := JNone; "Snapshots" := JList []; "Comment" := JNone ]}.

(** * Properties *)

(** ** The error monad and comprehensions *)

Lemma bind_ok_inv {A B} (m : result A) (k : A -> result B) (b : B) :
  bind m k = Ok b -> exists a, m = Ok a /\ k a = Ok b.
Proof. destruct m as [a|e]; simpl; intros H; [eauto | discriminate]. Qed.

Lemma bind_raise_inv {A B} (m : result A) (k : A -> result B) (e : exn) :
  bind m k = Raise e -> m = Raise e \/ exists a, m = Ok a /\ k a = Raise e.
Proof. destruct m as [a|e']; simpl; intros H; [right; eauto | left; congruence]. Qed.

Ltac inv_bind H :=
  let a := fresh "a" in
  let Ha := fresh "Ha" in
  apply bind_ok_inv in H; destruct H as (a & Ha & H).

Lemma filter_result_ok {A} (p : A -> result bool) (l l' : list A) :
  filter_result p l = Ok l' ->
  (forall x, x ∈ l -> exists b, p x = Ok b) /\
  (forall x, x ∈ l' <-> x ∈ l /\ p x = Ok true) /\
  (length l' <= length l)%nat.
Proof.
  revert l'. induction l as [|y l IH]; simpl; intros l' H.
  - injection H as <-. split; [|split]; [| |done].
    + intros x Hx. by apply elem_of_nil in Hx.
    + intros x. rewrite elem_of_nil. tauto.
  - inv_bind H. inv_bind H. injection H as <-.
    destruct (IH _ Ha0) as (IH1 & IH2 & IH3).
    split; [|split].
    + intros x [->|Hx]%elem_of_cons; eauto.
    + intros x. destruct a.
      * rewrite !elem_of_cons, IH2. split.
        -- intros [->|[? ?]]; auto.
        -- intros [[->|?] ?]; auto.
      * rewrite elem_of_cons, IH2. split.
        -- intros [? ?]; auto.
        -- intros [[->|?] ?]; [congruence | auto].
    + destruct a; simpl; lia.
Qed.

Lemma filter_result_total {A} (p : A -> result bool) (l : list A) :
  (forall x, x ∈ l -> exists b, p x = Ok b) ->
  exists l', filter_result p l = Ok l'.
Proof.
  induction l as [|y l IH]; simpl; intros H; [eauto|].
  destruct (H y) as [b Hb]; [left|]. rewrite Hb. simpl.
  destruct IH as [l' ->]; [intros x Hx; apply H; by right|].
  simpl. eauto.
Qed.

Lemma filter_result_raise {A} (p : A -> result bool) (l : list A) (e : exn) :
  filter_result p l = Raise e -> exists x, x ∈ l /\ p x = Raise e.
Proof.
  induction l as [|y l IH]; simpl; intros H; [discriminate|].
  apply bind_raise_inv in H as [H|(b & Hb & H)].
  - exists y. split; [left | done].
  - apply bind_raise_inv in H as [H|(xs & _ & H)]; [|discriminate].
    destruct (IH H) as (x & Hx & Hpx). exists x. split; [by right | done].
Qed.

Lemma map_result_ok {A B} (f : A -> result B) (l : list A) (l' : list B) :
  map_result f l = Ok l' ->
  (forall y, y ∈ l' <-> exists x, x ∈ l /\ f x = Ok y) /\
  length l' = length l.
Proof.
  revert l'. induction l as [|x0 l IH]; simpl; intros l' H.
  - injection H as <-. split; [|done].
    intros y. rewrite elem_of_nil. split; [done|].
    intros (x & Hx & _). by apply elem_of_nil in Hx.
  - inv_bind H. inv_bind H. injection H as <-.
    destruct (IH _ Ha0) as [IH1 IH2]. split; [|simpl; lia].
    intros y. rewrite elem_of_cons, IH1. split.
    + intros [->|(x & Hx & Hfx)].
      * exists x0. split; [left | done].
      * exists x. split; [by right | done].
    + intros (x & [->|Hx]%elem_of_cons & Hfx).
      * left. congruence.
      * right. eauto.
Qed.

Lemma map_result_raise {A B} (f : A -> result B) (l : list A) (e : exn) :
  map_result f l = Raise e -> exists x, x ∈ l /\ f x = Raise e.
Proof.
  induction l as [|y l IH]; simpl; intros H; [discriminate|].
  apply bind_raise_inv in H as [H|(b & Hb & H)].
  - exists y. split; [left | done].
  - apply bind_raise_inv in H as [H|(xs & _ & H)]; [|discriminate].
    destruct (IH H) as (x & Hx & Hfx). exists x. split; [by right | done].
Qed.

Lemma map_result_fails {A B} (f : A -> result B) (l : list A) (x : A) (e : exn) :
  x ∈ l -> f x = Raise e -> exists e', map_result f l = Raise e'.
Proof.
  induction l as [|y l IH]; simpl; intros Hx Hfx.
  - by apply elem_of_nil in Hx.
  - destruct (f y) as [b|e0] eqn:Hy; simpl; [|eauto].
    apply elem_of_cons in Hx as [->|Hx]; [congruence|].
    destruct (IH Hx Hfx) as [e' ->]. simpl. eauto.
Qed.

Lemma for_each_app {S A} (body : S -> A -> result S) (l1 l2 : list A) (s : S) :
  for_each body (l1 ++ l2) s = (s' <- for_each body l1 s ;; for_each body l2 s').
Proof.
  revert s. induction l1 as [|x l1 IH]; simpl; intros s; [done|].
  destruct (body s x) as [s'|e]; simpl; [apply IH | done].
Qed.

Lemma map_result_total {A B} (f : A -> result B) (l : list A) :
  (forall x, x ∈ l -> exists y, f x = Ok y) ->
  exists l', map_result f l = Ok l'.
Proof.
  induction l as [|x0 l IH]; simpl; intros H; [eauto|].
  destruct (H x0) as [y Hy]; [left|]. rewrite Hy. simpl.
  destruct IH as [l' ->]; [intros x Hx; apply H; by right|].
  simpl. eauto.
Qed.

(** ** Set comprehensions *)

Lemma size_list_to_set_le (l : list IV) :
  (size (list_to_set l : gset IV) <= length l)%nat.
Proof.
  induction l as [|x l IH].
  - by rewrite list_to_set_nil, size_empty.
  - rewrite list_to_set_cons, size_union_alt, size_singleton. simpl.
    assert (size (list_to_set l ∖ {[x]} : gset IV) <= size (list_to_set l : gset IV))%nat.
    { apply subseteq_size. intros y Hy. by apply elem_of_difference in Hy as [? _]. }
    lia.
Qed.

Lemma set_filter_result_ok (p : IV -> result bool) (X X' : gset IV) :
  set_filter_result p X = Ok X' ->
  (forall x, x ∈ X -> exists b, p x = Ok b) /\
  (forall x, x ∈ X' <-> x ∈ X /\ p x = Ok true) /\
  (size X' <= size X)%nat.
Proof.
  unfold set_filter_result. intros H. inv_bind H. injection H as <-.
  destruct (filter_result_ok _ _ _ Ha) as (H1 & H2 & _).
  assert (Hmem : forall x, x ∈ (list_to_set a : gset IV) <-> x ∈ X /\ p x = Ok true).
  { intros x. by rewrite elem_of_list_to_set, H2, elem_of_elements. }
  split; [|split; [done|]].
  - intros x Hx. apply H1. by apply elem_of_elements.
  - apply subseteq_size. intros x Hx. by apply Hmem in Hx as [? _].
Qed.

Lemma set_filter_result_total (p : IV -> result bool) (X : gset IV) :
  (forall x, x ∈ X -> exists b, p x = Ok b) ->
  set_filter_result p X = Ok (filter (fun x => p x = Ok true) X).
Proof.
  intros H. unfold set_filter_result.
  destruct (filter_result_total p (elements X)) as [l Hl].
  { intros x Hx. apply H. by apply elem_of_elements. }
  rewrite Hl. simpl. f_equal. apply set_eq. intros x.
  destruct (filter_result_ok _ _ _ Hl) as (_ & H2 & _).
  by rewrite elem_of_list_to_set, H2, elem_of_elements, elem_of_filter, (comm and).
Qed.

Lemma set_filter_result_raise (p : IV -> result bool) (X : gset IV) (e : exn) :
  set_filter_result p X = Raise e -> exists x, x ∈ X /\ p x = Raise e.
Proof.
  unfold set_filter_result. intros H.
  apply bind_raise_inv in H as [H|(l & _ & H)]; [|discriminate].
  destruct (filter_result_raise _ _ _ H) as (x & Hx & Hpx).
  exists x. split; [by apply elem_of_elements | done].
Qed.

Lemma set_map_result_ok (f : IV -> result IV) (X X' : gset IV) :
  set_map_result f X = Ok X' ->
  (forall y, y ∈ X' <-> exists x, x ∈ X /\ f x = Ok y) /\
  (size X' <= size X)%nat.
Proof.
  unfold set_map_result. intros H. inv_bind H. injection H as <-.
  destruct (map_result_ok _ _ _ Ha) as [H1 H2]. split.
  - intros y. rewrite elem_of_list_to_set, H1.
    split; intros (x & Hx & Hfx); exists x; (split; [by apply elem_of_elements | done]).
  - etrans; [apply size_list_to_set_le|]. rewrite H2. done.
Qed.

Lemma set_map_result_raise (f : IV -> result IV) (X : gset IV) (e : exn) :
  set_map_result f X = Raise e -> exists x, x ∈ X /\ f x = Raise e.
Proof.
  unfold set_map_result. intros H.
  apply bind_raise_inv in H as [H|(l & _ & H)]; [|discriminate].
  destruct (map_result_raise _ _ _ H) as (x & Hx & Hfx).
  exists x. split; [by apply elem_of_elements | done].
Qed.

Lemma set_map_result_fails (f : IV -> result IV) (X : gset IV) (x : IV) (e : exn) :
  x ∈ X -> f x = Raise e -> exists e', set_map_result f X = Raise e'.
Proof.
  intros Hx Hfx. unfold set_map_result.
  destruct (map_result_fails f (elements X) x e) as [e' ->]; [|done|simpl; eauto].
  by apply elem_of_elements.
Qed.

(** A comprehension over a set given by a list can be evaluated on the list:
    the order of the visit changes neither success nor the resulting set. *)
Lemma set_filter_result_list (p : IV -> result bool) (l0 l : list IV) :
  filter_result p l0 = Ok l ->
  set_filter_result p (list_to_set l0) = Ok (list_to_set l).
Proof.
  intros H. destruct (filter_result_ok _ _ _ H) as (H1 & H2 & _).
  rewrite set_filter_result_total.
  - f_equal. apply set_eq. intros x.
    by rewrite elem_of_filter, !elem_of_list_to_set, H2, (comm and).
  - intros x Hx. apply H1. by apply elem_of_list_to_set in Hx.
Qed.

Lemma set_map_result_list (f : IV -> result IV) (l0 l : list IV) :
  map_result f l0 = Ok l ->
  set_map_result f (list_to_set l0) = Ok (list_to_set l).
Proof.
  intros H. destruct (map_result_ok _ _ _ H) as [H1 _].
  unfold set_map_result.
  destruct (map_result_total f (elements (list_to_set l0 : gset IV))) as [l' Hl'].
  { intros x Hx%elem_of_elements%elem_of_list_to_set.
    destruct (f x) as [y|e] eqn:Hfx; [eauto|].
    destruct (map_result_fails f l0 x e Hx Hfx) as [e' He']. congruence. }
  rewrite Hl'. simpl. f_equal. apply set_eq. intros y.
  destruct (map_result_ok _ _ _ Hl') as [H1' _].
  rewrite !elem_of_list_to_set, H1, H1'.
  split; intros (x & Hx & Hfx); exists x; (split; [|done]).
  - by apply elem_of_elements, elem_of_list_to_set in Hx.
  - by apply elem_of_elements, elem_of_list_to_set.
Qed.

(** ** The appraisal check *)

Lemma top_stat_is_a_stat (iv : IV) :
  top_stat iv = att iv \/ top_stat iv = dfn iv \/ top_stat iv = sta iv.
Proof. unfold top_stat. lia. Qed.

(** [valid_iv] as the conjunction of its ten early returns not being taken. *)
Lemma valid_iv_true_iff (a : Appraisal) (iv : IV) :
  valid_iv a iv = true <->
  (percentage iv <? OVERALL_APPRAISAL_MINIMUM_PERCENTS (overall a))%float = false /\
  float_gtb (percentage iv) (OVERALL_APPRAISAL_MAXIMUM_PERCENTS (overall a)) = false /\
  (top_stat iv <? IV_APPRAISAL_MINIMUM_VALUE (top_iv a)) = false /\
  (top_stat iv >? IV_APPRAISAL_MAXIMUM_VALUE (top_iv a)) = false /\
  top_att a = (top_stat iv =? att iv) /\
  top_dfn a = (top_stat iv =? dfn iv) /\
  top_hp a = (top_stat iv =? sta iv).
Proof.
  unfold valid_iv.
  destruct (percentage iv <? _)%float; [split; [done | intros (? & _); done]|].
  destruct (float_gtb _ _); [split; [done | intros (_ & ? & _); done]|].
  cbv zeta.
  destruct (top_stat iv <? _); [split; [done | intros (_ & _ & ? & _); done]|].
  destruct (top_stat iv >? _); [split; [done | intros (_ & _ & _ & ? & _); done]|].
  destruct (top_att a), (top_dfn a), (top_hp a),
    (top_stat iv =? att iv), (top_stat iv =? dfn iv), (top_stat iv =? sta iv);
    simpl; split; try done; intros (_ & _ & _ & _ & ? & ? & ?); done.
Qed.

Lemma valid_iv_flags (a : Appraisal) (iv : IV) :
  valid_iv a iv = true ->
  forall s, stat_flag a s = true <-> stat_value iv s = top_stat iv.
Proof.
  intros (_ & _ & _ & _ & Ha & Hd & Hs)%valid_iv_true_iff s.
  destruct s; simpl; [rewrite Ha | rewrite Hd | rewrite Hs];
    rewrite Z.eqb_eq; split; congruence.
Qed.

Lemma band_agrees_all :
  forallb (fun s =>
             forallb (band_agrees (percentage_of_sum s))
                     [OverallAppraisal.wonder; OverallAppraisal.attention;
                      OverallAppraisal.average; OverallAppraisal.likely])
          (seqZ 0 (3 * MAX_IV + 1)) = true.
Proof. vm_compute. reflexivity. Qed.

Lemma band_agrees_wf (iv : IV) (o : OverallAppraisal.t) :
  iv_wf iv -> band_agrees (percentage iv) o = true.
Proof.
  intros (Ha & Hd & Hs). unfold MAX_IV in *.
  pose proof band_agrees_all as H. rewrite forallb_forall in H.
  specialize (H (stat_sum iv)).
  rewrite forallb_forall in H. apply H.
  - apply list_elem_of_In, elem_of_seqZ. unfold MAX_IV, stat_sum. lia.
  - destruct o; simpl; tauto.
Qed.

Lemma in_overall_band_iff (a : Appraisal) (iv : IV) :
  iv_wf iv ->
  in_overall_band a iv <->
  (percentage iv <? OVERALL_APPRAISAL_MINIMUM_PERCENTS (overall a))%float = false /\
  float_gtb (percentage iv) (OVERALL_APPRAISAL_MAXIMUM_PERCENTS (overall a)) = false.
Proof.
  intros Hwf. pose proof (band_agrees_wf iv (overall a) Hwf) as H.
  unfold band_agrees in H. apply andb_true_iff in H as [H1 H2].
  apply eqb_prop in H1, H2. rewrite H1, H2.
  unfold in_overall_band, float_between. rewrite !negb_false_iff. done.
Qed.

(** C1: for a candidate whose stats lie in [0, MAX_IV], [valid_iv] accepts it
    iff (a) its overall quality percentage lies in the closed interval of the
    overall band, (b) its largest stat lies in the closed interval of the
    dominant-stat band, and (c) for each stat the appraisal's flag is true iff
    the stat equals the largest one; and when two stats are tied for the
    largest, an appraisal that flags one of them and not the other is
    rejected. *)
Theorem valid_iv_accepts_iff (a : Appraisal) (iv : IV) :
  iv_wf iv ->
  (valid_iv a iv = true <->
   in_overall_band a iv /\
   in_top_band a iv /\
   (forall s, stat_flag a s = true <-> stat_value iv s = top_stat iv)) /\
  (forall s1 s2,
     s1 <> s2 ->
     stat_value iv s1 = top_stat iv ->
     stat_value iv s2 = top_stat iv ->
     stat_flag a s1 = true ->
     stat_flag a s2 = false ->
     valid_iv a iv = false).
Proof.
  intros Hwf. split.
  - rewrite valid_iv_true_iff, (in_overall_band_iff a iv Hwf).
    unfold in_top_band. rewrite Z.ltb_ge, Z.gtb_ltb, Z.ltb_ge. split.
    + intros (H1 & H2 & H3 & H4 & Ha & Hd & Hs).
      split; [done|]. split; [lia|].
      intros s. destruct s; simpl; [rewrite Ha | rewrite Hd | rewrite Hs];
        rewrite Z.eqb_eq; split; congruence.
    + intros ((H1 & H2) & (H3 & H4) & Hf).
      repeat (split; [done|]).
      pose proof (Hf Att) as Ha. pose proof (Hf Dfn) as Hd.
      pose proof (Hf Sta) as Hs. simpl in Ha, Hd, Hs.
      repeat split; apply eq_true_iff_eq; rewrite Z.eqb_eq;
        [rewrite Ha | rewrite Hd | rewrite Hs]; split; congruence.
  - intros s1 s2 _ _ H2 _ Hf2.
    destruct (valid_iv a iv) eqn:Hv; [|done].
    apply (valid_iv_flags a iv Hv s2) in H2. congruence.
Qed.

Lemma perfect_iv_wf : iv_wf perfect_iv.
Proof. unfold iv_wf, perfect_iv, MAX_IV. simpl. lia. Defined.

(** The characterisation at the perfect candidate. *)
Lemma valid_iv_accepts_iff_witness :
  iv_wf perfect_iv /\
  (valid_iv perfect_appraisal perfect_iv = true <->
   in_overall_band perfect_appraisal perfect_iv /\
   in_top_band perfect_appraisal perfect_iv /\
   (forall s, stat_flag perfect_appraisal s = true <->
              stat_value perfect_iv s = top_stat perfect_iv)).
Proof.
  split; [exact perfect_iv_wf|].
  exact (proj1 (valid_iv_accepts_iff perfect_appraisal perfect_iv perfect_iv_wf)).
Defined.

Example valid_iv_perfect : valid_iv perfect_appraisal perfect_iv = true.
Proof. vm_compute. reflexivity. Qed.

(** The bounds of a band belong to it: a sum of 36 is exactly 80 percent. *)
Example valid_iv_closed_bound :
  valid_iv (mkAppraisal OverallAppraisal.attention true true true TopIV.trending)
           (mkIV 1 12 12 12) = true /\
  percentage (mkIV 1 12 12 12) = 80%float.
Proof. vm_compute. done. Qed.

(** A candidate with attack and defense tied at 15 is rejected by an
    appraisal that names the attack alone. *)
Example valid_iv_tie_rejected :
  valid_iv (mkAppraisal OverallAppraisal.wonder true false false TopIV.exceed)
           (mkIV 1 15 15 10) = false.
Proof. vm_compute. reflexivity. Qed.

(** C10: an appraisal whose three flags are all false accepts no candidate:
    the largest stat equals at least one of the three stats, and the flag of
    that stat is false. *)
Theorem valid_iv_no_flag_rejects (o : OverallAppraisal.t) (t : TopIV.t) (iv : IV) :
  (top_stat iv = att iv \/ top_stat iv = dfn iv \/ top_stat iv = sta iv) /\
  valid_iv (mkAppraisal o false false false t) iv = false.
Proof.
  split; [apply top_stat_is_a_stat|].
  destruct (valid_iv _ iv) eqn:Hv; [|done].
  apply valid_iv_true_iff in Hv as (_ & _ & _ & _ & Ha & Hd & Hs).
  simpl in Ha, Hd, Hs. symmetry in Ha, Hd, Hs.
  apply Z.eqb_neq in Ha, Hd, Hs.
  destruct (top_stat_is_a_stat iv) as [?|[?|?]]; congruence.
Qed.

(** C6: [appraise] stores an appraisal whose [top_att] is the argument passed
    as [top_hp], whose [top_dfn] is the argument passed as [top_att] and whose
    [top_hp] is the argument passed as [top_dfn]; so [valid_iv] checks the
    argument passed as [top_hp] against the attack, the one passed as
    [top_att] against the defense and the one passed as [top_dfn] against the
    stamina. *)
Theorem appraise_shifts_flags (self : Pokemon) (o : OverallAppraisal.t)
    (arg_top_hp arg_top_att arg_top_dfn : bool) (t : TopIV.t) :
  exists a,
    appraisal (appraise self o arg_top_hp arg_top_att arg_top_dfn t) = Some a /\
    overall a = o /\
    top_att a = arg_top_hp /\
    top_dfn a = arg_top_att /\
    top_hp a = arg_top_dfn /\
    top_iv a = t /\
    forall iv,
      valid_iv a iv = true ->
      (arg_top_hp = true <-> att iv = top_stat iv) /\
      (arg_top_att = true <-> dfn iv = top_stat iv) /\
      (arg_top_dfn = true <-> sta iv = top_stat iv).
Proof.
  eexists. split; [reflexivity|]. simpl. repeat (split; [reflexivity|]).
  intros iv Hv. pose proof (valid_iv_flags _ iv Hv) as Hf.
  split; [apply (Hf Att) | split; [apply (Hf Dfn) | apply (Hf Sta)]].
Qed.

(** The flag passed as [top_hp] is checked against the attack: a candidate
    whose stamina alone is the largest stat is rejected. *)
Example appraise_top_hp_checks_attack :
  appraisal (appraise caught OverallAppraisal.likely true false false TopIV.trending)
  = Some (mkAppraisal OverallAppraisal.likely true false false TopIV.trending) /\
  valid_iv (mkAppraisal OverallAppraisal.likely true false false TopIV.trending)
           (mkIV 1 0 0 12) = false /\
  valid_iv (mkAppraisal OverallAppraisal.likely true false false TopIV.trending)
           (mkIV 1 12 0 0) = true.
Proof. vm_compute. done. Qed.

(** ** Forward simulation of CP and HP *)

(** [int] truncates toward zero and the formulas take a floor; once the
    result is raised to at least 10 the two agree on every float. *)
Lemma max_int_max_floor (x : float) :
  (n <- int_of_float x ;; Ok (Z.max n 10)) =
  (n <- floor_of_float x ;; Ok (Z.max n 10)).
Proof.
  unfold int_of_float, floor_of_float.
  destruct (Prim2SF x) as [| | |s m e]; try reflexivity.
  destruct (0 <=? e) eqn:He; [reflexivity|]. simpl. f_equal.
  apply Z.leb_gt in He.
  assert (Hp : 0 < 2 ^ (- e)) by (apply Z.pow_pos_nonneg; lia).
  destruct s; simpl.
  - assert (Z.neg m ÷ 2 ^ (- e) <= 0).
    { change (Z.neg m) with (- Z.pos m). rewrite Z.quot_opp_l by lia.
      pose proof (Z.quot_pos (Z.pos m) (2 ^ (- e))). lia. }
    assert (Z.neg m / 2 ^ (- e) < 0) by (apply Z.div_lt_upper_bound; lia).
    lia.
  - rewrite Z.quot_div_nonneg by lia. reflexivity.
Qed.

(** [floor_of_float] is the floor: on a float [sm * 2^e] with a negative
    exponent it returns the integer [n] with [n <= sm * 2^e < n + 1]. *)
Lemma floor_of_float_spec (x : float) (s : bool) (m : positive) (e n : Z) :
  Prim2SF x = S754_finite s m e ->
  e < 0 ->
  floor_of_float x = Ok n ->
  n * 2 ^ (- e) <= signed_mantissa s m < (n + 1) * 2 ^ (- e).
Proof.
  intros Hx He. unfold floor_of_float. rewrite Hx.
  destruct (0 <=? e) eqn:Hle; [apply Z.leb_le in Hle; lia|].
  intros [= <-].
  assert (Hp : 0 < 2 ^ (- e)) by (apply Z.pow_pos_nonneg; lia).
  pose proof (Z.div_mod (signed_mantissa s m) (2 ^ (- e))) as Hdm.
  pose proof (Z.mod_pos_bound (signed_mantissa s m) (2 ^ (- e)) Hp) as Hmod.
  nia.
Qed.

(** Truncation and floor differ on negative floats that are not integers. *)
Example int_and_floor_differ :
  int_of_float (-2.5)%float = Ok (-2) /\ floor_of_float (-2.5)%float = Ok (-3).
Proof. vm_compute. done. Qed.

Section ForwardSimulation.

Variable tbl : StatGrowthTable.

Lemma calc_cp_binary64 (sp : Species) (iv : IV) (n : Z) :
  calc_cp tbl sp iv = Ok n <-> binary64_cp tbl sp iv = Some n.
Proof.
  unfold calc_cp, binary64_cp, math_sqrt_int, math_sqrt, float_of_int, binary64_of_Z.
  set (a := SF2Prim (binary_normalize prec emax (base_att sp + att iv) 0 false)).
  set (d := SF2Prim (binary_normalize prec emax (base_dfn sp + dfn iv) 0 false)).
  set (s := SF2Prim (binary_normalize prec emax (base_sta sp + sta iv) 0 false)).
  destruct (is_infinity d); cbn [bind orb];
    [by destruct (is_infinity a)|].
  destruct (d <? 0)%float; cbn [bind orb];
    [by destruct (is_infinity a), (is_infinity s)|].
  destruct (is_infinity a); cbn [bind orb]; [done|].
  destruct (is_infinity s); cbn [bind orb]; [done|].
  destruct (s <? 0)%float; cbn [bind orb]; [done|].
  rewrite max_int_max_floor.
  destruct (floor_of_float _) as [m|e]; simpl; [|done].
  split; congruence.
Qed.

Lemma calc_hp_binary64 (sp : Species) (iv : IV) (n : Z) :
  calc_hp tbl sp iv = Ok n <-> binary64_hp tbl sp iv = Some n.
Proof.
  unfold calc_hp, binary64_hp, math_sqrt, float_of_int, binary64_of_Z.
  set (b := SF2Prim (binary_normalize prec emax (base_sta sp + sta iv) 0 false)).
  destruct (cp_scalar tbl iv <? 0)%float; cbn [bind orb];
    [by destruct (is_infinity b)|].
  destruct (is_infinity b); cbn [bind orb]; [done|].
  rewrite max_int_max_floor.
  destruct (floor_of_float _) as [m|e]; simpl; [|done].
  split; congruence.
Qed.

Lemma matches_true_iff (sp : Species) (cp hp : Z) (iv : IV) :
  matches tbl (Some sp) cp hp iv = Ok true <->
  calc_cp tbl sp iv = Ok cp /\ calc_hp tbl sp iv = Ok hp.
Proof.
  unfold matches. simpl.
  destruct (calc_cp tbl sp iv) as [c|e]; simpl; [|split; [done | intros [? _]; done]].
  destruct (c =? cp) eqn:Hc.
  - apply Z.eqb_eq in Hc as ->.
    destruct (calc_hp tbl sp iv) as [h|e]; simpl; [|split; [done | intros [_ ?]; done]].
    split.
    + intros [= ->%Z.eqb_eq]. done.
    + intros [_ [= ->]]. by rewrite Z.eqb_refl.
  - apply Z.eqb_neq in Hc. split; [done | intros [[= ?] _]; done].
Qed.

Lemma matches_total (sp : Species) (cp hp : Z) (iv : IV) :
  (exists c, calc_cp tbl sp iv = Ok c) ->
  (exists h, calc_hp tbl sp iv = Ok h) ->
  exists b, matches tbl (Some sp) cp hp iv = Ok b.
Proof.
  intros [c Hc] [h Hh]. unfold matches. simpl. rewrite Hc. simpl.
  destruct (c =? cp); [rewrite Hh; simpl|]; eauto.
Qed.

(** C2 (amended): the simulated CP is the CP formula evaluated in binary64
    arithmetic, every operation rounded to nearest, then floored and raised to
    at least 10; the simulated HP is the HP formula evaluated in the same
    way; they have a value exactly when that evaluation has one.  The
    observation filter keeps exactly the candidates whose simulated CP and HP
    both equal the observed integers, and it returns a set whenever both
    simulations return on every candidate. *)
Theorem forward_simulation_binary64 (sp : Species) :
  (forall iv n, calc_cp tbl sp iv = Ok n <-> binary64_cp tbl sp iv = Some n) /\
  (forall iv n, calc_hp tbl sp iv = Ok n <-> binary64_hp tbl sp iv = Some n) /\
  (forall cp hp X X',
     observation_filter tbl (Some sp) cp hp X = Ok X' ->
     forall iv, iv ∈ X' <->
                iv ∈ X /\ binary64_cp tbl sp iv = Some cp /\ binary64_hp tbl sp iv = Some hp) /\
  (forall cp hp X,
     (forall iv, iv ∈ X ->
                 is_Some (binary64_cp tbl sp iv) /\ is_Some (binary64_hp tbl sp iv)) ->
     exists X', observation_filter tbl (Some sp) cp hp X = Ok X').
Proof.
  split; [apply calc_cp_binary64|]. split; [apply calc_hp_binary64|]. split.
  - intros cp hp X X' H iv. unfold observation_filter in H.
    destruct (set_filter_result_ok _ _ _ H) as (_ & H2 & _).
    by rewrite H2, matches_true_iff, calc_cp_binary64, calc_hp_binary64.
  - intros cp hp X H. unfold observation_filter.
    rewrite set_filter_result_total; [eauto|].
    intros iv Hiv. destruct (H iv Hiv) as [[c Hc] [h Hh]].
    apply matches_total; [exists c; by apply calc_cp_binary64
                         | exists h; by apply calc_hp_binary64].
Qed.

End ForwardSimulation.

Example calc_cp_bulbasaur :
  calc_cp example_table bulbasaur (mkIV 1 0 0 12) = Ok 12 /\
  calc_hp example_table bulbasaur (mkIV 1 0 0 12) = Ok 13 /\
  calc_cp example_table magikarp (mkIV 3 15 15 15) = Ok 10 /\
  calc_hp example_table magikarp (mkIV 3 15 15 15) = Ok 10.
Proof. vm_compute. done. Qed.

(** A species with a negative base stat makes [math.sqrt] raise. *)
Example calc_cp_domain_error :
  calc_cp example_table (mkSpecies 10 (-20) 10) (mkIV 1 0 0 0) = Raise ValueError.
Proof. vm_compute. reflexivity. Qed.

Example observation_filter_small :
  observation_filter example_table (Some bulbasaur) 12 13
    {[ mkIV 1 0 0 12; mkIV 1 0 0 10; mkIV 3 0 0 12 ]}
  = Ok {[ mkIV 1 0 0 12 ]}.
Proof. vm_compute. reflexivity. Qed.

(** ** The history reducer *)

Section HistoryReducer.

Variable tbl : StatGrowthTable.

Lemma run_snapshots_snoc (l : list Snapshot) (e : Snapshot) :
  run_snapshots tbl (l ++ [e]) = (st <- run_snapshots tbl l ;; loop_body tbl st e).
Proof.
  unfold run_snapshots. rewrite for_each_app.
  destruct (for_each _ l _) as [st|err]; simpl; [|done].
  by destruct (loop_body tbl st e).
Qed.

Lemma run_snapshots_app (l1 l2 : list Snapshot) :
  run_snapshots tbl (l1 ++ l2) =
  (st <- run_snapshots tbl l1 ;; for_each (loop_body tbl) l2 st).
Proof. unfold run_snapshots. apply for_each_app. Qed.

Lemma loop_body_ok (st st' : Locals) (e : Snapshot) :
  loop_body tbl st e = Ok st' ->
  exists X X',
    next_candidates tbl st e = Ok X /\
    observation_filter tbl (next_species st e) (snapshot_cp e) (snapshot_hp e) X = Ok X' /\
    st' = mkLocals (next_species st e) (Some X').
Proof.
  unfold loop_body. intros H. inv_bind H. inv_bind H. injection H as <-. eauto.
Qed.

Lemma first_species_snoc (l : list Snapshot) (e : Snapshot) :
  first_species (rev (l ++ [e])) =
  match snapshot_species e with
  | Ok sp => Some sp
  | Raise _ => first_species (rev l)
  end.
Proof. by rewrite rev_unit. Qed.

(** After the loop has run over [l], the local [species] holds what the
    property [Pokemon.species] returns on [l]. *)
Lemma run_snapshots_species (l : list Snapshot) (st : Locals) :
  run_snapshots tbl l = Ok st -> l_species st = first_species (rev l).
Proof.
  revert st. induction l as [|e l IH] using rev_ind; intros st H.
  - injection H as <-. done.
  - rewrite run_snapshots_snoc in H. inv_bind H.
    apply loop_body_ok in H as (X & X' & _ & _ & ->). simpl.
    rewrite first_species_snoc. unfold next_species.
    destruct (snapshot_species e); [done | by apply IH].
Qed.

(** C5: every event is filtered against the species that the property
    [species] gives on the timeline up to and including that event, so the
    candidates it keeps are those whose CP and HP simulated with the base
    stats of that species equal the observed ones: an event that carries no
    species is filtered against the species established before it, and after
    an evolution the new species is the one used, also by the power-ups that
    follow. *)
Theorem species_is_sticky (l : list Snapshot) (e : Snapshot) :
  (forall st,
     run_snapshots tbl l = Ok st ->
     run_snapshots tbl (l ++ [e]) =
     (X <- next_candidates tbl st e ;;
      X' <- observation_filter tbl (first_species (rev (l ++ [e])))
                               (snapshot_cp e) (snapshot_hp e) X ;;
      Ok (mkLocals (first_species (rev (l ++ [e]))) (Some X')))) /\
  (forall st st' X' iv,
     run_snapshots tbl l = Ok st ->
     run_snapshots tbl (l ++ [e]) = Ok st' ->
     l_possible_ivs st' = Some X' ->
     iv ∈ X' ->
     exists sp,
       first_species (rev (l ++ [e])) = Some sp /\
       calc_cp tbl sp iv = Ok (snapshot_cp e) /\
       calc_hp tbl sp iv = Ok (snapshot_hp e)) /\
  (snapshot_species e = Raise AttributeError ->
   first_species (rev (l ++ [e])) = first_species (rev l)) /\
  (forall sp pus,
     snapshot_species e = Ok sp ->
     Forall (fun s => snapshot_species s = Raise AttributeError) pus ->
     first_species (rev (l ++ [e] ++ pus)) = Some sp).
Proof.
  assert (Hstep : forall st,
             run_snapshots tbl l = Ok st ->
             run_snapshots tbl (l ++ [e]) =
             (X <- next_candidates tbl st e ;;
              X' <- observation_filter tbl (first_species (rev (l ++ [e])))
                                       (snapshot_cp e) (snapshot_hp e) X ;;
              Ok (mkLocals (first_species (rev (l ++ [e]))) (Some X')))).
  { intros st H. rewrite run_snapshots_snoc, H. simpl. unfold loop_body.
    replace (next_species st e) with (first_species (rev (l ++ [e]))); [done|].
    rewrite first_species_snoc. unfold next_species.
    by rewrite (run_snapshots_species l st H). }
  split; [exact Hstep|]. split; [|split].
  - intros st st' X' iv Hl Hle HX' Hiv. rewrite (Hstep st Hl) in Hle.
    apply bind_ok_inv in Hle as (X & _ & Hle).
    apply bind_ok_inv in Hle as (Y & HY & Hle).
    injection Hle as <-. simpl in HX'. injection HX' as ->.
    apply set_filter_result_ok in HY as (_ & HY & _).
    apply HY in Hiv as [_ Hm].
    destruct (first_species (rev (l ++ [e]))) as [sp|]; [|done].
    exists sp. split; [done|]. by apply matches_true_iff.
  - intros H. by rewrite first_species_snoc, H.
  - intros sp pus Hsp. induction pus as [|s pus IH] using rev_ind; intros Hpus.
    + by rewrite app_nil_r, first_species_snoc, Hsp.
    + apply Forall_app in Hpus as [Hpus Hs]. apply Forall_inv in Hs.
      rewrite !app_assoc, first_species_snoc, Hs, <- app_assoc. by apply IH.
Qed.

Lemma next_candidates_count (st : Locals) (e : Snapshot) (X : gset IV) :
  is_start e = false ->
  next_candidates tbl st e = Ok X ->
  (size X <= candidate_count st)%nat.
Proof.
  unfold candidate_count.
  destruct e as [sp cp hp dust half|cp hp dust k|sp cp hp dust k]; simpl; [done| |];
    intros _ H; inv_bind H; destruct (l_possible_ivs st) as [X0|]; try done;
    injection Ha as <-; by apply set_map_result_ok in H as [_ ?].
Qed.

Lemma observation_filter_count (sp : option Species) (cp hp : Z) (X X' : gset IV) :
  observation_filter tbl sp cp hp X = Ok X' -> (size X' <= size X)%nat.
Proof. intros H. by apply set_filter_result_ok in H as (_ & _ & ?). Qed.

(** C7: the candidate set never grows: a power-up or an evolution leaves at
    most as many candidates as there were, the first event leaves at most as
    many as the initial candidates, and the appraisal filter leaves at most
    as many as it was given; hence along every timeline each additional
    event, and the final answer, have at most as many candidates as the step
    before. *)
Theorem candidates_never_grow :
  (forall st e st',
     is_start e = false ->
     loop_body tbl st e = Ok st' ->
     (candidate_count st' <= candidate_count st)%nat) /\
  (forall st sp cp hp dust half_levels st',
     loop_body tbl st (StartSnapshot sp cp hp dust half_levels) = Ok st' ->
     (candidate_count st' <= size (possible_ivs tbl dust half_levels))%nat) /\
  (forall a st st',
     appraisal_filter a st = Ok st' ->
     (candidate_count st' <= candidate_count st)%nat) /\
  (forall l e st st',
     is_start e = false ->
     run_snapshots tbl l = Ok st ->
     run_snapshots tbl (l ++ [e]) = Ok st' ->
     (candidate_count st' <= candidate_count st)%nat) /\
  (forall timeline prefix e rest st st',
     is_timeline timeline ->
     timeline = prefix ++ e :: rest ->
     prefix <> [] ->
     run_snapshots tbl prefix = Ok st ->
     run_snapshots tbl (prefix ++ [e]) = Ok st' ->
     (candidate_count st' <= candidate_count st)%nat) /\
  (forall self st X,
     run_snapshots tbl (snapshots self) = Ok st ->
     calc_ivs tbl self = Ok X ->
     (size X <= candidate_count st)%nat).
Proof.
  assert (Hstep : forall st e st',
             is_start e = false ->
             loop_body tbl st e = Ok st' ->
             (candidate_count st' <= candidate_count st)%nat).
  { intros st e st' He H. apply loop_body_ok in H as (X & X' & HX & HX' & ->).
    apply (next_candidates_count _ _ _ He) in HX.
    apply observation_filter_count in HX'. unfold candidate_count at 1. simpl. lia. }
  assert (Happ : forall a st st',
             appraisal_filter a st = Ok st' ->
             (candidate_count st' <= candidate_count st)%nat).
  { intros [a|] st st' H; simpl in H; [|by injection H as <-].
    inv_bind H. injection H as <-. unfold candidate_count. simpl.
    destruct (l_possible_ivs st) as [X|]; [|done]. injection Ha as <-.
    apply subseteq_size. intros x Hx. by apply elem_of_filter in Hx as [_ ?]. }
  assert (Hsnoc : forall l e st st',
             is_start e = false ->
             run_snapshots tbl l = Ok st ->
             run_snapshots tbl (l ++ [e]) = Ok st' ->
             (candidate_count st' <= candidate_count st)%nat).
  { intros l e st st' He Hl H. rewrite run_snapshots_snoc, Hl in H.
    by apply (Hstep st e st'). }
  repeat split; [exact Hstep| |exact Happ|exact Hsnoc| |].
  - intros st sp cp hp dust half st' H.
    apply loop_body_ok in H as (X & X' & HX & HX' & ->).
    injection HX as <-. apply observation_filter_count in HX'. done.
  - intros timeline prefix e rest st st' Ht -> Hne Hl H.
    apply (Hsnoc prefix e st st'); [|done|done].
    destruct prefix as [|s prefix]; [done|]. destruct Ht as [_ Ht].
    apply Forall_app in Ht as [_ Ht]. by apply Forall_inv in Ht.
  - intros self st X Hl H. unfold calc_ivs in H. rewrite Hl in H. simpl in H.
    inv_bind H. apply Happ in Ha. unfold candidate_count at 1 in Ha.
    destruct (l_possible_ivs a) as [Y|]; [|done]. injection H as <-. done.
Qed.

(** *** Which exceptions can escape *)

Lemma float_of_int_raise (z : Z) (e : exn) :
  float_of_int z = Raise e -> arith_error e.
Proof.
  unfold float_of_int, arith_error. destruct (is_infinity _); intros [= <-]; auto.
Qed.

Lemma math_sqrt_raise (x : float) (e : exn) :
  math_sqrt x = Raise e -> arith_error e.
Proof.
  unfold math_sqrt, arith_error. destruct (x <? 0)%float; intros [= <-]; auto.
Qed.

Lemma math_sqrt_int_raise (z : Z) (e : exn) :
  math_sqrt_int z = Raise e -> arith_error e.
Proof.
  unfold math_sqrt_int. intros [H|(x & _ & H)]%bind_raise_inv.
  - by apply float_of_int_raise in H.
  - by apply math_sqrt_raise in H.
Qed.

Lemma int_of_float_raise (x : float) (e : exn) :
  int_of_float x = Raise e -> arith_error e.
Proof.
  unfold int_of_float, arith_error.
  destruct (Prim2SF x) as [| | |s m k]; try (intros [= <-]; auto).
  destruct (0 <=? k); intros [= <-].
Qed.

Lemma calc_cp_raise (sp : Species) (iv : IV) (e : exn) :
  calc_cp tbl sp iv = Raise e -> arith_error e.
Proof.
  unfold calc_cp. intros H.
  apply bind_raise_inv in H as [H|(d & _ & H)]; [by apply math_sqrt_int_raise in H|].
  apply bind_raise_inv in H as [H|(a & _ & H)]; [by apply float_of_int_raise in H|].
  apply bind_raise_inv in H as [H|(s & _ & H)]; [by apply math_sqrt_int_raise in H|].
  apply bind_raise_inv in H as [H|(n & _ & H)]; [by apply int_of_float_raise in H|].
  discriminate.
Qed.

Lemma calc_hp_raise (sp : Species) (iv : IV) (e : exn) :
  calc_hp tbl sp iv = Raise e -> arith_error e.
Proof.
  unfold calc_hp. intros H.
  apply bind_raise_inv in H as [H|(r & _ & H)]; [by apply math_sqrt_raise in H|].
  apply bind_raise_inv in H as [H|(b & _ & H)]; [by apply float_of_int_raise in H|].
  apply bind_raise_inv in H as [H|(n & _ & H)]; [by apply int_of_float_raise in H|].
  discriminate.
Qed.

Lemma matches_raise (sp : Species) (cp hp : Z) (iv : IV) (e : exn) :
  matches tbl (Some sp) cp hp iv = Raise e -> arith_error e.
Proof.
  unfold matches. simpl. intros H.
  apply bind_raise_inv in H as [H|(c & _ & H)]; [by apply calc_cp_raise in H|].
  destruct (c =? cp); [|discriminate].
  apply bind_raise_inv in H as [H|(h & _ & H)]; [by apply calc_hp_raise in H|].
  discriminate.
Qed.

Lemma increment_level_raise (iv : IV) (k : Z) (e : exn) :
  increment_level tbl iv k = Raise e -> e = LevelOutOfRange.
Proof. unfold increment_level. destruct (_ <? _); by intros [= <-]. Qed.

Lemma arith_error_not_unbound (e : exn) : arith_error e -> ~ unbound_error e.
Proof. intros [->| ->] [?|?]; discriminate. Qed.

(** An iteration that starts with both locals assigned, or that processes a
    [StartSnapshot], leaves both locals assigned or raises an exception that
    is not about an unassigned variable. *)
Lemma loop_body_bound (st : Locals) (e : Snapshot) :
  is_start e = true \/ all_bound st ->
  match loop_body tbl st e with
  | Ok st' => all_bound st'
  | Raise err => ~ unbound_error err
  end.
Proof.
  intros Hst.
  assert (Hsp : exists sp, next_species st e = Some sp).
  { unfold next_species. destruct e; simpl; eauto.
    destruct Hst as [?|[[sp ->] _]]; [done | eauto]. }
  destruct Hsp as [sp Hsp].
  assert (Hnext : match next_candidates tbl st e with
                  | Ok _ => True
                  | Raise err => err = LevelOutOfRange
                  end).
  { destruct e as [sp0 cp hp dust half|cp hp dust k|sp0 cp hp dust k]; simpl; [done| |];
      (destruct Hst as [?|[_ [X HX]]]; [done|]); rewrite HX; simpl;
      (destruct (set_map_result _ X) as [Y|err] eqn:HY; [done|]);
      apply set_map_result_raise in HY as (x & _ & Hx);
      by apply increment_level_raise in Hx. }
  unfold loop_body. rewrite Hsp.
  destruct (next_candidates tbl st e) as [X|err]; simpl.
  - destruct (observation_filter _ _ _ _ X) as [X'|err] eqn:HX'; simpl.
    + split; simpl; eauto.
    + apply set_filter_result_raise in HX' as (x & _ & Hx).
      by apply matches_raise, arith_error_not_unbound in Hx.
  - subst err. intros [?|?]; discriminate.
Qed.

Lemma for_each_bound (l : list Snapshot) (st : Locals) :
  all_bound st ->
  match for_each (loop_body tbl) l st with
  | Ok st' => all_bound st'
  | Raise err => ~ unbound_error err
  end.
Proof.
  revert st. induction l as [|e l IH]; simpl; intros st Hst; [done|].
  pose proof (loop_body_bound st e (or_intror Hst)) as H.
  destruct (loop_body tbl st e) as [st'|err]; simpl; [by apply IH | done].
Qed.

(** C9: when the first snapshot is a [StartSnapshot], no exception of
    [calc_ivs] is about an unassigned variable; when the list of snapshots is
    empty, or begins with a [PowerUpSnapshot] or an [EvolutionSnapshot],
    [calc_ivs] raises [UnboundLocalError]. *)
Theorem calc_ivs_needs_start (self : Pokemon) :
  (forall sp cp hp dust half_levels rest,
     snapshots self = StartSnapshot sp cp hp dust half_levels :: rest ->
     (exists X, calc_ivs tbl self = Ok X) \/
     (exists err, calc_ivs tbl self = Raise err /\ ~ unbound_error err)) /\
  (snapshots self = [] -> calc_ivs tbl self = Raise UnboundLocalError) /\
  (forall e rest,
     snapshots self = e :: rest ->
     is_start e = false ->
     calc_ivs tbl self = Raise UnboundLocalError).
Proof.
  split; [|split].
  - intros sp cp hp dust half rest Hs. unfold calc_ivs, run_snapshots.
    rewrite Hs. simpl for_each.
    pose proof (loop_body_bound (mkLocals None None)
                  (StartSnapshot sp cp hp dust half) (or_introl eq_refl)) as H1.
    destruct (loop_body tbl _ _) as [st1|err]; simpl; [|eauto].
    pose proof (for_each_bound rest st1 H1) as H2.
    destruct (for_each _ rest st1) as [st2|err]; simpl; [|eauto].
    destruct H2 as [_ [X HX]]. left.
    destruct (appraisal self) as [a|]; simpl; rewrite HX; simpl; eauto.
  - intros Hs. unfold calc_ivs, run_snapshots. rewrite Hs. simpl.
    by destruct (appraisal self).
  - intros e rest Hs He. unfold calc_ivs, run_snapshots. rewrite Hs. simpl.
    by destruct e.
Qed.

Lemma next_candidates_out_of_range (st : Locals) (e : Snapshot) (k : Z)
    (X : gset IV) (iv : IV) :
  snapshot_power_ups e = Ok k ->
  l_possible_ivs st = Some X ->
  iv ∈ X ->
  max_level tbl < level iv + k ->
  next_candidates tbl st e = Raise LevelOutOfRange.
Proof.
  intros Hk HX Hiv Hlvl.
  assert (Hinc : increment_level tbl iv k = Raise LevelOutOfRange).
  { unfold increment_level. apply Z.ltb_lt in Hlvl. by rewrite Hlvl. }
  destruct (set_map_result_fails (fun x => increment_level tbl x k) X iv _ Hiv Hinc)
    as [e' He'].
  pose proof He' as He''.
  apply set_map_result_raise in He'' as (x & _ & ->%increment_level_raise).
  destruct e; simpl in Hk |- *; [done| |]; injection Hk as ->;
    rewrite HX; simpl; exact He'.
Qed.

(** C3 (amended): when advancing some candidate by the growth steps of a
    power-up or an evolution exceeds the maximum level, the error of
    [increment_level] escapes the loop and [calc_ivs] raises it: the whole
    inference is aborted. *)
Theorem out_of_range_aborts (self : Pokemon) (prefix rest : list Snapshot)
    (e : Snapshot) (k : Z) (st : Locals) (X : gset IV) (iv : IV) :
  snapshots self = prefix ++ e :: rest ->
  snapshot_power_ups e = Ok k ->
  run_snapshots tbl prefix = Ok st ->
  l_possible_ivs st = Some X ->
  iv ∈ X ->
  max_level tbl < level iv + k ->
  calc_ivs tbl self = Raise LevelOutOfRange.
Proof.
  intros Hs Hk Hrun HX Hiv Hlvl. unfold calc_ivs.
  rewrite Hs, run_snapshots_app, Hrun. simpl. unfold loop_body.
  by rewrite (next_candidates_out_of_range st e k X iv).
Qed.

(** C4 (amended): when no candidate is left after the loop and the appraisal
    filter, [calc_ivs] returns the empty set itself, as an ordinary value. *)
Theorem empty_set_is_returned (self : Pokemon) (st : Locals) (X : gset IV) :
  run_snapshots tbl (snapshots self) = Ok st ->
  l_possible_ivs st = Some X ->
  match appraisal self with
  | Some a => filter (fun iv => valid_iv a iv = true) X
  | None => X
  end = ∅ ->
  calc_ivs tbl self = Ok ∅.
Proof.
  intros Hrun HX Hempty. unfold calc_ivs. rewrite Hrun. simpl.
  destruct (appraisal self) as [a|]; simpl; rewrite HX; simpl; by rewrite Hempty.
Qed.

Lemma calc_cp_at_least_10 (sp : Species) (iv : IV) (c : Z) :
  calc_cp tbl sp iv = Ok c -> 10 <= c.
Proof.
  unfold calc_cp. intros H.
  apply bind_ok_inv in H as (d & _ & H). apply bind_ok_inv in H as (a & _ & H).
  apply bind_ok_inv in H as (s & _ & H). apply bind_ok_inv in H as (n & _ & H).
  injection H as <-. lia.
Qed.

(** An observed CP below 10 is matched by no candidate, since [calc_cp]
    returns at least 10. *)
Lemma cp_below_floor_empties (self : Pokemon) (l : list Snapshot) (e : Snapshot)
    (X : gset IV) :
  snapshots self = l ++ [e] ->
  snapshot_cp e < 10 ->
  calc_ivs tbl self = Ok X ->
  X = ∅.
Proof.
  intros Hs Hcp H. unfold calc_ivs in H. rewrite Hs, run_snapshots_snoc in H.
  apply bind_ok_inv in H as (st1 & Hst1 & H).
  apply bind_ok_inv in Hst1 as (st0 & _ & Hbody).
  apply loop_body_ok in Hbody as (Y & Y' & _ & HY' & ->).
  assert (HY : Y' = ∅).
  { apply set_eq. intros iv. split; [|by intros ?%not_elem_of_empty].
    intros Hiv. exfalso.
    apply set_filter_result_ok in HY' as (_ & HY' & _).
    apply HY' in Hiv as [_ Hm]. unfold matches in Hm.
    apply bind_ok_inv in Hm as (sp & _ & Hm).
    apply bind_ok_inv in Hm as (c & Hc & Hm).
    apply calc_cp_at_least_10 in Hc.
    destruct (c =? snapshot_cp e) eqn:Heq; [|discriminate].
    apply Z.eqb_eq in Heq. lia. }
  subst Y'. apply bind_ok_inv in H as (st2 & Happ & H).
  destruct (appraisal self) as [ap|]; simpl in Happ.
  - injection Happ as <-. simpl in H. injection H as <-.
    apply set_eq. intros iv. rewrite elem_of_filter.
    split; [by intros [_ ?] | by intros ?%not_elem_of_empty].
  - injection Happ as <-. simpl in H. by injection H as <-.
Qed.

(** *** The candidates satisfy the invariant of IVs *)

Lemma elem_of_possible_ivs_list (dust : Z) (half_levels : bool) (iv : IV) :
  iv ∈ possible_ivs_list tbl dust half_levels <->
  level iv ∈ reachable_levels tbl dust half_levels /\ iv_wf iv.
Proof.
  unfold possible_ivs_list, iv_wf, stat_values, MAX_IV. split.
  - intros (l & (a & (d & (s & ->%list_elem_of_singleton & Hs)%list_elem_of_bind
              & Hd)%list_elem_of_bind & Ha)%list_elem_of_bind & Hl)%list_elem_of_bind.
    apply elem_of_seqZ in Ha, Hd, Hs. simpl. split; [done | lia].
  - intros (Hl & Ha & Hd & Hs). destruct iv as [l a d s]. simpl in Hl, Ha, Hd, Hs.
    apply list_elem_of_bind. exists l. split; [|done].
    apply list_elem_of_bind. exists a. split; [|apply elem_of_seqZ; lia].
    apply list_elem_of_bind. exists d. split; [|apply elem_of_seqZ; lia].
    apply list_elem_of_bind. exists s. split; [|apply elem_of_seqZ; lia].
    by apply list_elem_of_singleton.
Qed.

Lemma elem_of_possible_ivs (dust : Z) (half_levels : bool) (iv : IV) :
  iv ∈ possible_ivs tbl dust half_levels <->
  level iv ∈ reachable_levels tbl dust half_levels /\ iv_wf iv.
Proof.
  unfold possible_ivs. by rewrite elem_of_list_to_set, elem_of_possible_ivs_list.
Qed.

Lemma increment_level_wf (iv iv' : IV) (k : Z) :
  increment_level tbl iv k = Ok iv' -> iv_wf iv -> iv_wf iv'.
Proof.
  unfold increment_level. destruct (_ <? _); [done|]. by intros [= <-].
Qed.

Lemma loop_body_wf (st st' : Locals) (e : Snapshot) :
  candidates_wf st -> loop_body tbl st e = Ok st' -> candidates_wf st'.
Proof.
  intros Hwf H. apply loop_body_ok in H as (X & X' & HX & HX' & ->).
  intros Y [= <-] iv Hiv.
  apply set_filter_result_ok in HX' as (_ & HX' & _).
  apply HX' in Hiv as [Hiv _].
  destruct e as [sp cp hp dust half|cp hp dust k|sp cp hp dust k]; simpl in HX.
  - injection HX as <-. by apply elem_of_possible_ivs in Hiv as [_ ?].
  - apply bind_ok_inv in HX as (X0 & HX0 & HX).
    destruct (l_possible_ivs st) as [X1|] eqn:HX1; [|done]. injection HX0 as ->.
    apply set_map_result_ok in HX as [HX _]. apply HX in Hiv as (x & Hx & Hinc).
    apply (increment_level_wf _ _ _ Hinc). by apply (Hwf X0).
  - apply bind_ok_inv in HX as (X0 & HX0 & HX).
    destruct (l_possible_ivs st) as [X1|] eqn:HX1; [|done]. injection HX0 as ->.
    apply set_map_result_ok in HX as [HX _]. apply HX in Hiv as (x & Hx & Hinc).
    apply (increment_level_wf _ _ _ Hinc). by apply (Hwf X0).
Qed.

Lemma for_each_wf (l : list Snapshot) (st st' : Locals) :
  candidates_wf st -> for_each (loop_body tbl) l st = Ok st' -> candidates_wf st'.
Proof.
  revert st. induction l as [|e l IH]; simpl; intros st Hwf H.
  - by injection H as <-.
  - apply bind_ok_inv in H as (st1 & H1 & H). apply (IH st1); [|done].
    by apply (loop_body_wf st st1 e).
Qed.

(** Every candidate that [calc_ivs] returns has its stats in [0, MAX_IV]. *)
Lemma calc_ivs_wf (self : Pokemon) (X : gset IV) :
  calc_ivs tbl self = Ok X -> forall iv, iv ∈ X -> iv_wf iv.
Proof.
  unfold calc_ivs, run_snapshots. intros H.
  apply bind_ok_inv in H as (st & Hst & H).
  apply for_each_wf in Hst; [|by intros Y [=]].
  apply bind_ok_inv in H as (st' & Happ & H).
  destruct (appraisal self) as [a|]; simpl in Happ.
  - apply bind_ok_inv in Happ as (Y & HY & Happ). injection Happ as <-.
    simpl in H. injection H as <-.
    destruct (l_possible_ivs st) as [Y'|] eqn:HY'; [|done]. injection HY as ->.
    intros iv [_ Hiv]%elem_of_filter. by apply (Hst Y).
  - injection Happ as <-.
    destruct (l_possible_ivs st) as [Y'|] eqn:HY'; [|done]. injection H as ->.
    by apply (Hst X).
Qed.

(** *** Evaluating the first event on the list of initial candidates *)

Lemma run_start_eval (sp : Species) (cp hp dust : Z) (half_levels : bool)
    (l : list IV) :
  filter_result (matches tbl (Some sp) cp hp) (possible_ivs_list tbl dust half_levels)
  = Ok l ->
  run_snapshots tbl [StartSnapshot sp cp hp dust half_levels]
  = Ok (mkLocals (Some sp) (Some (list_to_set l))).
Proof.
  intros H. unfold run_snapshots, for_each, loop_body.
  cbn [next_species next_candidates snapshot_species snapshot_cp snapshot_hp bind].
  unfold observation_filter, possible_ivs.
  by rewrite (set_filter_result_list _ _ _ H).
Qed.

Lemma run_start_total (sp : Species) (cp hp dust : Z) (half_levels : bool) :
  forallb (fun iv => is_ok (matches tbl (Some sp) cp hp iv))
          (possible_ivs_list tbl dust half_levels) = true ->
  run_snapshots tbl [StartSnapshot sp cp hp dust half_levels]
  = Ok (mkLocals (Some sp)
          (Some (filter (fun iv => matches tbl (Some sp) cp hp iv = Ok true)
                        (possible_ivs tbl dust half_levels)))).
Proof.
  intros H. unfold run_snapshots, for_each, loop_body.
  cbn [next_species next_candidates snapshot_species snapshot_cp snapshot_hp bind].
  unfold observation_filter. rewrite set_filter_result_total; [done|].
  intros iv Hiv. rewrite forallb_forall in H.
  apply elem_of_list_to_set, list_elem_of_In, H in Hiv.
  destruct (matches _ _ _ _ iv); [eauto | done].
Qed.

(** [calc_ivs] resumed from the state reached after a prefix of the
    snapshots. *)
Lemma calc_ivs_resume (self : Pokemon) (prefix rest : list Snapshot) (st : Locals) :
  snapshots self = prefix ++ rest ->
  run_snapshots tbl prefix = Ok st ->
  calc_ivs tbl self =
  (st' <- for_each (loop_body tbl) rest st ;;
   st'' <- appraisal_filter (appraisal self) st' ;;
   read_local (l_possible_ivs st'')).
Proof.
  intros Hs Hrun. unfold calc_ivs. by rewrite Hs, run_snapshots_app, Hrun.
Qed.

End HistoryReducer.

(** ** The range projector *)

Lemma order_agrees_all :
  forallb (fun s1 => forallb (order_agrees s1) (seqZ 0 (3 * MAX_IV + 1)))
          (seqZ 0 (3 * MAX_IV + 1)) = true.
Proof. vm_compute. reflexivity. Qed.

Lemma stat_sum_range (iv : IV) : iv_wf iv -> In (stat_sum iv) (seqZ 0 (3 * MAX_IV + 1)).
Proof.
  intros (Ha & Hd & Hs). apply list_elem_of_In, elem_of_seqZ.
  unfold MAX_IV, stat_sum in *. lia.
Qed.

(** On well-formed IVs the float order of the percentages is the order of the
    sums of the stats. *)
Lemma percentage_order (iv1 iv2 : IV) :
  iv_wf iv1 -> iv_wf iv2 ->
  (percentage iv1 <? percentage iv2)%float = (stat_sum iv1 <? stat_sum iv2) /\
  (percentage iv1 <=? percentage iv2)%float = (stat_sum iv1 <=? stat_sum iv2).
Proof.
  intros H1%stat_sum_range H2%stat_sum_range.
  pose proof order_agrees_all as H. rewrite forallb_forall in H.
  specialize (H _ H1). rewrite forallb_forall in H. specialize (H _ H2).
  unfold order_agrees in H. apply andb_true_iff in H as [Hlt Hle].
  apply eqb_prop in Hlt, Hle. done.
Qed.

Lemma fold_min_spec (l : list IV) (c : IV) :
  iv_wf c -> (forall x, x ∈ l -> iv_wf x) ->
  exists m,
    (m = c \/ m ∈ l) /\
    fold_left (fun cur item => if (item <? cur)%float then item else cur)
              (map percentage l) (percentage c) = percentage m /\
    stat_sum m <= stat_sum c /\
    forall x, x ∈ l -> stat_sum m <= stat_sum x.
Proof.
  revert c. induction l as [|a l IH]; intros c Hc Hl.
  - exists c. repeat split; [by left | lia |]. intros x Hx. by apply elem_of_nil in Hx.
  - assert (Ha : iv_wf a) by (apply Hl; left).
    assert (Hl' : forall x, x ∈ l -> iv_wf x) by (intros x Hx; apply Hl; by right).
    simpl. destruct (percentage_order a c Ha Hc) as [-> _].
    destruct (stat_sum a <? stat_sum c) eqn:Hlt.
    + apply Z.ltb_lt in Hlt. destruct (IH a Ha Hl') as (m & Hm & Hfold & Hmc & Hall).
      exists m. repeat split; [|done|lia|].
      * right. destruct Hm as [->|?]; [left | by right].
      * intros x [->|Hx]%elem_of_cons; [done | by apply Hall].
    + apply Z.ltb_ge in Hlt. destruct (IH c Hc Hl') as (m & Hm & Hfold & Hmc & Hall).
      exists m. repeat split; [|done|done|].
      * destruct Hm as [->|?]; [by left | right; by right].
      * intros x [->|Hx]%elem_of_cons; [lia | by apply Hall].
Qed.

Lemma fold_max_spec (l : list IV) (c : IV) :
  iv_wf c -> (forall x, x ∈ l -> iv_wf x) ->
  exists m,
    (m = c \/ m ∈ l) /\
    fold_left (fun cur item => if float_gtb item cur then item else cur)
              (map percentage l) (percentage c) = percentage m /\
    stat_sum c <= stat_sum m /\
    forall x, x ∈ l -> stat_sum x <= stat_sum m.
Proof.
  revert c. induction l as [|a l IH]; intros c Hc Hl.
  - exists c. repeat split; [by left | lia |]. intros x Hx. by apply elem_of_nil in Hx.
  - assert (Ha : iv_wf a) by (apply Hl; left).
    assert (Hl' : forall x, x ∈ l -> iv_wf x) by (intros x Hx; apply Hl; by right).
    simpl. unfold float_gtb at 2. destruct (percentage_order c a Hc Ha) as [-> _].
    destruct (stat_sum c <? stat_sum a) eqn:Hlt.
    + apply Z.ltb_lt in Hlt. destruct (IH a Ha Hl') as (m & Hm & Hfold & Hmc & Hall).
      exists m. repeat split; [|done|lia|].
      * right. destruct Hm as [->|?]; [left | by right].
      * intros x [->|Hx]%elem_of_cons; [done | by apply Hall].
    + apply Z.ltb_ge in Hlt. destruct (IH c Hc Hl') as (m & Hm & Hfold & Hmc & Hall).
      exists m. repeat split; [|done|done|].
      * destruct Hm as [->|?]; [by left | right; by right].
      * intros x [->|Hx]%elem_of_cons; [lia | by apply Hall].
Qed.

Section RangeProjector.

Variable tbl : StatGrowthTable.

(** C8: on an empty final candidate set [percentage_range] raises the
    [ValueError] of [min] on an empty sequence instead of returning a pair; on
    a non-empty set it returns a pair of percentages that are attained in the
    set and that bound the percentage of every candidate of the set. *)
Theorem percentage_range_spec (self : Pokemon) :
  (calc_ivs tbl self = Ok ∅ -> percentage_range tbl self = Raise ValueError) /\
  (forall X,
     calc_ivs tbl self = Ok X ->
     X <> ∅ ->
     exists lo hi,
       percentage_range tbl self = Ok (lo, hi) /\
       (exists iv, iv ∈ X /\ percentage iv = lo) /\
       (exists iv, iv ∈ X /\ percentage iv = hi) /\
       forall iv, iv ∈ X -> float_between lo hi (percentage iv)).
Proof.
  split.
  - intros H. unfold percentage_range. rewrite H. simpl.
    by rewrite elements_empty.
  - intros X H Hne. unfold percentage_range. rewrite H. simpl.
    pose proof (calc_ivs_wf tbl self X H) as Hwf.
    destruct (elements X) as [|c l] eqn:Hel.
    { exfalso. apply Hne. by apply leibniz_equiv, elements_empty_inv. }
    assert (Hin : forall x, x ∈ c :: l <-> x ∈ X).
    { intros x. by rewrite <- Hel, elem_of_elements. }
    assert (Hc : iv_wf c) by (apply Hwf, Hin; left).
    assert (Hl : forall x, x ∈ l -> iv_wf x) by (intros x Hx; apply Hwf, Hin; by right).
    destruct (fold_min_spec l c Hc Hl) as (lo & Hlo & Hflo & Hloc & Hlol).
    destruct (fold_max_spec l c Hc Hl) as (hi & Hhi & Hfhi & Hhic & Hhil).
    assert (Hlo' : lo ∈ X).
    { apply Hin. destruct Hlo as [->|?]; [left | by right]. }
    assert (Hhi' : hi ∈ X).
    { apply Hin. destruct Hhi as [->|?]; [left | by right]. }
    exists (percentage lo), (percentage hi). simpl. rewrite Hflo, Hfhi. simpl.
    split; [done|]. split; [eauto|]. split; [eauto|].
    intros iv Hiv. pose proof (Hwf iv Hiv) as Hivwf. apply Hin in Hiv. split.
    + destruct (percentage_order lo iv (Hwf _ Hlo') Hivwf) as [_ ->].
      apply Z.leb_le. apply elem_of_cons in Hiv as [->|?]; [lia | by apply Hlol].
    + destruct (percentage_order iv hi Hivwf (Hwf _ Hhi')) as [_ ->].
      apply Z.leb_le. apply elem_of_cons in Hiv as [->|?]; [lia | by apply Hhil].
Qed.

End RangeProjector.

(** ** Worked examples on the example table *)

Lemma caught_run :
  run_snapshots example_table (snapshots caught) = Ok caught_state.
Proof. apply run_start_eval. vm_compute. reflexivity. Qed.

Lemma caught_calc_ivs : calc_ivs example_table caught = Ok caught_candidates.
Proof.
  rewrite (calc_ivs_resume _ caught (snapshots caught) [] caught_state);
    [reflexivity | by rewrite app_nil_r | exact caught_run].
Qed.

Lemma evolved_powered_calc_ivs :
  calc_ivs example_table evolved_powered
  = Ok (list_to_set [mkIV 3 0 0 11; mkIV 3 0 0 12]).
Proof.
  rewrite (calc_ivs_resume _ evolved_powered (snapshots caught)
             [EvolutionSnapshot ivysaur 20 15 600 0; PowerUpSnapshot 64 27 200 2]
             caught_state); [|reflexivity|exact caught_run].
  vm_compute. reflexivity.
Qed.

(** Had the power-up been simulated with the base stats of the original
    species, CP 64 and HP 27 would have matched no candidate. *)
Example original_species_would_not_match :
  calc_cp example_table bulbasaur (mkIV 3 0 0 11) = Ok 40 /\
  calc_hp example_table bulbasaur (mkIV 3 0 0 11) = Ok 23 /\
  calc_cp example_table ivysaur (mkIV 3 0 0 11) = Ok 64 /\
  calc_hp example_table ivysaur (mkIV 3 0 0 11) = Ok 27.
Proof. vm_compute. done. Qed.

Lemma impossible_run :
  run_snapshots example_table (snapshots impossible)
  = Ok (mkLocals (Some bulbasaur) (Some ∅)).
Proof.
  change (∅ : gset IV) with (list_to_set [] : gset IV).
  apply run_start_eval. vm_compute. reflexivity.
Qed.

Lemma impossible_calc_ivs : calc_ivs example_table impossible = Ok ∅.
Proof.
  rewrite (calc_ivs_resume _ impossible (snapshots impossible) [] _
             (eq_sym (app_nil_r _)) impossible_run).
  reflexivity.
Qed.

Lemma weak_run : run_snapshots example_table (snapshots weak) = Ok weak_state.
Proof. apply run_start_total. vm_compute. reflexivity. Qed.

Lemma weak_candidate_level_1 : mkIV 1 0 0 0 ∈ weak_candidates.
Proof.
  apply elem_of_filter. split; [vm_compute; reflexivity|].
  apply elem_of_possible_ivs. split.
  - simpl. apply elem_of_cons. by left.
  - unfold iv_wf, MAX_IV. simpl. lia.
Qed.

Lemma weak_candidate_level_3 : mkIV 3 0 0 0 ∈ weak_candidates.
Proof.
  apply elem_of_filter. split; [vm_compute; reflexivity|].
  apply elem_of_possible_ivs. split.
  - simpl. apply elem_of_cons. right. apply elem_of_cons. by left.
  - unfold iv_wf, MAX_IV. simpl. lia.
Qed.

Lemma weak_calc_ivs : calc_ivs example_table weak = Ok weak_candidates.
Proof.
  rewrite (calc_ivs_resume _ weak (snapshots weak) [] _
             (eq_sym (app_nil_r _)) weak_run).
  reflexivity.
Qed.

(** The Magikarp powered up by three steps: its candidate at level 2 cannot
    be advanced, and [calc_ivs] raises. *)
Lemma out_of_range_aborts_witness :
  (mkIV 3 0 0 0 ∈ weak_candidates /\ max_level example_table < 3 + 3) /\
  calc_ivs example_table weak_powered = Raise LevelOutOfRange.
Proof.
  split; [split; [exact weak_candidate_level_3 | reflexivity]|].
  exact (out_of_range_aborts example_table weak_powered (snapshots weak) []
           (PowerUpSnapshot 10 10 400 3) 3 weak_state weak_candidates (mkIV 3 0 0 0)
           eq_refl eq_refl weak_run eq_refl weak_candidate_level_3 eq_refl).
Defined.

(** The candidate at level 1 could be advanced by three steps and would match
    the observation of the power-up, and yet the inference raises because of
    the candidates at level 2. *)
Lemma out_of_range_not_dropped :
  calc_ivs example_table weak_powered = Raise LevelOutOfRange /\
  exists X,
    calc_ivs example_table weak = Ok X /\
    mkIV 1 0 0 0 ∈ X /\
    increment_level example_table (mkIV 1 0 0 0) 3 = Ok (mkIV 4 0 0 0) /\
    matches example_table (Some magikarp) 10 10 (mkIV 4 0 0 0) = Ok true.
Proof.
  split.
  - rewrite (calc_ivs_resume _ weak_powered (snapshots weak)
               [PowerUpSnapshot 10 10 400 3] weak_state eq_refl weak_run).
    cbn [for_each]. unfold loop_body.
    rewrite (next_candidates_out_of_range example_table weak_state
               (PowerUpSnapshot 10 10 400 3) 3 weak_candidates (mkIV 3 0 0 0)
               eq_refl eq_refl weak_candidate_level_3 eq_refl).
    reflexivity.
  - exists weak_candidates. split; [exact weak_calc_ivs|].
    split; [exact weak_candidate_level_1|]. split; vm_compute; reflexivity.
Qed.

(** The appraised capture: the appraisal filter leaves no candidate and
    [calc_ivs] returns the empty set. *)
Lemma empty_set_is_returned_witness :
  run_snapshots example_table (snapshots appraised) = Ok caught_state /\
  calc_ivs example_table appraised = Ok ∅.
Proof.
  split; [exact caught_run|].
  apply (empty_set_is_returned example_table appraised caught_state caught_candidates
           caught_run eq_refl).
  vm_compute. reflexivity.
Defined.

(** A history that no candidate explains yields the empty set as the answer
    of [calc_ivs]. *)
Lemma empty_answer_is_silent : calc_ivs example_table impossible = Ok ∅.
Proof. exact impossible_calc_ivs. Qed.

(** On three candidates on which both evaluations have a value, the filter
    returns a set. *)
Lemma forward_simulation_binary64_witness :
  exists X',
    observation_filter example_table (Some bulbasaur) 12 13
      (list_to_set [mkIV 1 0 0 12; mkIV 1 0 0 10; mkIV 3 0 0 12]) = Ok X'.
Proof.
  apply (proj2 (proj2 (proj2 (forward_simulation_binary64 example_table bulbasaur)))).
  intros iv Hiv. apply elem_of_list_to_set in Hiv.
  repeat (apply elem_of_cons in Hiv as [->|Hiv];
          [split; eexists; vm_compute; reflexivity|]).
  by apply elem_of_nil in Hiv.
Defined.

Lemma Prim2SF_one : Prim2SF 1 = S754_finite false 4503599627370496 (-52).
Proof. vm_compute. reflexivity. Qed.

Lemma R_of_float_one : R_of_float 1 = 1%R.
Proof.
  unfold R_of_float. rewrite Prim2SF_one.
  change (0 <=? -52) with false. cbv iota.
  change (2 ^ (- -52)) with 4503599627370496.
  change (signed_mantissa false 4503599627370496) with 4503599627370496.
  field.
Qed.

(** The floor of a real number is unique, and so is its value raised to a
    minimum of 10. *)
Lemma floor_at_least_10_unique (x : R) (n n' : Z) :
  floor_at_least_10 x n -> floor_at_least_10 x n' -> n = n'.
Proof.
  intros (m & [Hlo Hhi] & ->) (m' & [Hlo' Hhi'] & ->).
  assert (Hlt : (IZR m < IZR (m' + 1))%R) by (rewrite plus_IZR; lra).
  assert (Hlt' : (IZR m' < IZR (m + 1))%R) by (rewrite plus_IZR; lra).
  apply lt_IZR in Hlt, Hlt'. f_equal. lia.
Qed.

(** With the attack sum 250, the defense and stamina sums 12 and the
    multiplier 1, the exact value of the CP formula is 250 * 12 / 10 = 300. *)
Lemma exact_cp_twelves : exact_cp unit_table twelves (mkIV 1 0 0 0) 300.
Proof.
  unfold exact_cp, exact_cp_value, floor_at_least_10.
  change (cp_scalar unit_table (mkIV 1 0 0 0)) with 1%float.
  rewrite R_of_float_one.
  change (base_att twelves + att (mkIV 1 0 0 0)) with 250.
  change (base_dfn twelves + dfn (mkIV 1 0 0 0)) with 12.
  change (base_sta twelves + sta (mkIV 1 0 0 0)) with 12.
  exists 300. split; [|reflexivity].
  assert (H12 : (R_sqrt.sqrt 12 * R_sqrt.sqrt 12 = 12)%R) by (apply sqrt_sqrt; lra).
  replace (250 * R_sqrt.sqrt 12 * R_sqrt.sqrt 12 * 1 / 10)%R
    with (250 * (R_sqrt.sqrt 12 * R_sqrt.sqrt 12) / 10)%R by field.
  rewrite H12. lra.
Qed.

(** At that input the value of the specification is 300 and no other. *)
Example exact_cp_twelves_only (n : Z) :
  exact_cp unit_table twelves (mkIV 1 0 0 0) n <-> n = 300.
Proof.
  split.
  - intros H. exact (floor_at_least_10_unique _ _ _ H exact_cp_twelves).
  - intros ->. exact exact_cp_twelves.
Qed.

(** At that input the simulated CP is 299 where the formula of the
    specification gives 300: the float product of the two square roots of 12
    is just below 12, so the quotient is just below 300. *)
Lemma calc_cp_below_exact_floor :
  calc_cp unit_table twelves (mkIV 1 0 0 0) = Ok 299 /\
  exact_cp unit_table twelves (mkIV 1 0 0 0) 300.
Proof. split; [vm_compute; reflexivity | exact exact_cp_twelves]. Qed.

(** *** Where the simulation and the exact formulas agree *)

Lemma floor_at_least_10_intro (x : R) (n : Z) :
  10 <= n ->
  (x < IZR n + 1)%R ->
  (10 < n -> (IZR n <= x)%R) ->
  floor_at_least_10 x n.
Proof.
  intros Hn Hup Hlo. destruct (decide (10 < n)) as [Hbig|Hsmall].
  - exists n. split; [split; [by apply Hlo | done] | lia].
  - assert (n = 10) as -> by lia.
    exists (up x - 1). destruct (archimed x) as [H1 H2].
    rewrite minus_IZR. split; [split; lra|].
    assert (Hlt : (IZR (up x - 1) < IZR 11)%R) by (rewrite minus_IZR; lra).
    apply lt_IZR in Hlt. lia.
Qed.

Lemma square_le_reg (a b : R) : (0 <= a -> 0 <= b -> a * a <= b * b -> a <= b)%R.
Proof. intros. nra. Qed.

Lemma square_lt_reg (a b : R) : (0 <= a -> 0 <= b -> a * a < b * b -> a < b)%R.
Proof. intros. nra. Qed.

Lemma cp_value_bounds (A D S p q : Z) :
  0 <= A -> 0 <= D -> 0 <= S -> 0 <= p -> 0 < q ->
  let x := (IZR A * R_sqrt.sqrt (IZR D) * R_sqrt.sqrt (IZR S) * (IZR p / IZR q) / 10)%R in
  forall n, 0 <= n ->
    (A * A * D * S * (p * p) < (10 * q * (n + 1)) * (10 * q * (n + 1)) -> (x < IZR n + 1)%R) /\
    ((10 * q * n) * (10 * q * n) <= A * A * D * S * (p * p) -> (IZR n <= x)%R).
Proof.
  intros HA HD HS Hp Hq x n Hn.
  apply IZR_le in HA, HD, HS, Hp, Hn. apply IZR_lt in Hq.
  pose proof (sqrt_pos (IZR D)) as Hrd. pose proof (sqrt_pos (IZR S)) as Hrs.
  pose proof (sqrt_sqrt (IZR D) HD) as Hd2. pose proof (sqrt_sqrt (IZR S) HS) as Hs2.
  set (t := (IZR A * R_sqrt.sqrt (IZR D) * R_sqrt.sqrt (IZR S) * IZR p)%R).
  assert (Ht : (0 <= t)%R).
  { unfold t. repeat apply Rmult_le_pos; done. }
  assert (Ht2 : (t * t = IZR A * IZR A * IZR D * IZR S * (IZR p * IZR p))%R).
  { transitivity (IZR A * IZR A * (R_sqrt.sqrt (IZR D) * R_sqrt.sqrt (IZR D))
                   * (R_sqrt.sqrt (IZR S) * R_sqrt.sqrt (IZR S)) * (IZR p * IZR p))%R;
      [unfold t; ring | by rewrite Hd2, Hs2]. }
  assert (Hx : (x * (10 * IZR q) = t)%R).
  { unfold x, t. field. lra. }
  split; intros H.
  - apply IZR_lt in H. rewrite !mult_IZR, plus_IZR in H. rewrite <- Ht2 in H.
    apply square_lt_reg in H; [|done|].
    2:{ apply Rmult_le_pos; [|lra]. apply Rmult_le_pos; lra. }
    apply Rmult_lt_reg_r with (10 * IZR q)%R; [lra|]. rewrite Hx. lra.
  - apply IZR_le in H. rewrite !mult_IZR in H. rewrite <- Ht2 in H.
    apply square_le_reg in H; [| |done].
    2:{ apply Rmult_le_pos; [|lra]. apply Rmult_le_pos; lra. }
    apply Rmult_le_reg_r with (10 * IZR q)%R; [lra|]. rewrite Hx. lra.
Qed.

Lemma hp_value_bounds (B p q : Z) :
  0 <= B -> 0 <= p -> 0 < q ->
  let x := (IZR B * R_sqrt.sqrt (IZR p / IZR q))%R in
  forall n, 0 <= n ->
    (B * B * p < (n + 1) * (n + 1) * q -> (x < IZR n + 1)%R) /\
    (n * n * q <= B * B * p -> (IZR n <= x)%R).
Proof.
  intros HB Hp Hq x n Hn.
  apply IZR_le in HB, Hp, Hn. apply IZR_lt in Hq.
  assert (Hc : (0 <= IZR p / IZR q)%R).
  { apply Rmult_le_pos; [done|]. left. by apply Rinv_0_lt_compat. }
  pose proof (sqrt_pos (IZR p / IZR q)) as Hr.
  pose proof (sqrt_sqrt _ Hc) as Hr2.
  assert (Hx : (0 <= x)%R) by (unfold x; apply Rmult_le_pos; done).
  assert (Hx2 : (x * x * IZR q = IZR B * IZR B * IZR p)%R).
  { unfold x. replace (IZR B * R_sqrt.sqrt (IZR p / IZR q) * (IZR B * R_sqrt.sqrt (IZR p / IZR q)) * IZR q)%R
      with (IZR B * IZR B * (R_sqrt.sqrt (IZR p / IZR q) * R_sqrt.sqrt (IZR p / IZR q)) * IZR q)%R by ring.
    rewrite Hr2. field. lra. }
  split; intros H.
  - apply IZR_lt in H. rewrite !mult_IZR, plus_IZR in H. rewrite <- Hx2 in H.
    apply square_lt_reg; [done|lra|]. nra.
  - apply IZR_le in H. rewrite !mult_IZR in H. rewrite <- Hx2 in H.
    apply square_le_reg; [lra|done|]. nra.
Qed.

Lemma R_of_float_fraction (x : float) (p q : Z) :
  fraction_of_float x = Some (p, q) -> R_of_float x = (IZR p / IZR q)%R.
Proof.
  unfold fraction_of_float, R_of_float.
  destruct (Prim2SF x) as [| | |s m e]; try discriminate.
  - intros [= <- <-]. lra.
  - destruct (0 <=? e); intros [= <- <-]; [field | reflexivity].
Qed.

Lemma exact_cp_check_sound (tbl : StatGrowthTable) (sp : Species) (iv : IV) (n : Z) :
  exact_cp_check tbl sp iv n = true -> exact_cp tbl sp iv n.
Proof.
  unfold exact_cp_check, exact_cp, exact_cp_value.
  destruct (fraction_of_float (cp_scalar tbl iv)) as [[p q]|] eqn:Hc; [|discriminate].
  rewrite (R_of_float_fraction _ _ _ Hc).
  intros (((((((HA & HD)%andb_prop & HS)%andb_prop & Hp)%andb_prop & Hq)%andb_prop
             & Hn)%andb_prop & Hup)%andb_prop & Hlo)%andb_prop.
  apply Z.leb_le in HA, HD, HS, Hp, Hn. apply Z.ltb_lt in Hq, Hup.
  destruct (cp_value_bounds _ _ _ _ _ HA HD HS Hp Hq n) as [Hup' Hlo']; [lia|].
  apply floor_at_least_10_intro; [done | by apply Hup' |].
  intros Hbig. apply Hlo'. apply Z.ltb_lt in Hbig. rewrite Hbig in Hlo.
  by apply Z.leb_le.
Qed.

Lemma exact_hp_check_sound (tbl : StatGrowthTable) (sp : Species) (iv : IV) (n : Z) :
  exact_hp_check tbl sp iv n = true -> exact_hp tbl sp iv n.
Proof.
  unfold exact_hp_check, exact_hp, exact_hp_value.
  destruct (fraction_of_float (cp_scalar tbl iv)) as [[p q]|] eqn:Hc; [|discriminate].
  rewrite (R_of_float_fraction _ _ _ Hc).
  intros (((((HB & Hp)%andb_prop & Hq)%andb_prop & Hn)%andb_prop & Hup)%andb_prop
          & Hlo)%andb_prop.
  apply Z.leb_le in HB, Hp, Hn. apply Z.ltb_lt in Hq, Hup.
  destruct (hp_value_bounds _ _ _ HB Hp Hq n) as [Hup' Hlo']; [lia|].
  apply floor_at_least_10_intro; [done | by apply Hup' |].
  intros Hbig. apply Hlo'. apply Z.ltb_lt in Hbig. rewrite Hbig in Hlo.
  by apply Z.leb_le.
Qed.

Lemma elem_of_ivs_at (levels : list Z) (iv : IV) :
  level iv ∈ levels -> iv_wf iv -> iv ∈ ivs_at levels.
Proof.
  unfold ivs_at, iv_wf, MAX_IV. intros Hl (Ha & Hd & Hs).
  destruct iv as [l a d s]. simpl in Hl, Ha, Hd, Hs.
  apply list_elem_of_bind. exists l. split; [|done].
  apply list_elem_of_bind. exists a. split; [|apply elem_of_seqZ; lia].
  apply list_elem_of_bind. exists d. split; [|apply elem_of_seqZ; lia].
  apply list_elem_of_bind. exists s. split; [|apply elem_of_seqZ; lia].
  by apply list_elem_of_singleton.
Qed.

Lemma example_simulation_checked :
  forallb (fun sp => forallb (simulation_is_exact example_table sp) (ivs_at example_levels))
          example_species_list = true.
Proof. vm_compute. reflexivity. Qed.

(** On the example table, for the three example species and every IV of
    the five levels, the simulated CP and HP are the values of the formulas
    of the specification: the rounding of the floats does not show there. *)
Lemma example_simulation_exact (sp : Species) (iv : IV) :
  sp ∈ example_species_list ->
  level iv ∈ example_levels ->
  iv_wf iv ->
  exists c h,
    calc_cp example_table sp iv = Ok c /\ exact_cp example_table sp iv c /\
    calc_hp example_table sp iv = Ok h /\ exact_hp example_table sp iv h.
Proof.
  intros Hsp Hl Hwf.
  pose proof example_simulation_checked as Hall.
  rewrite forallb_forall in Hall.
  assert (Hiv := elem_of_ivs_at _ _ Hl Hwf).
  apply list_elem_of_In in Hsp, Hiv.
  specialize (Hall sp Hsp). rewrite forallb_forall in Hall.
  specialize (Hall iv Hiv). unfold simulation_is_exact in Hall.
  destruct (calc_cp example_table sp iv) as [c|]; [|discriminate].
  destruct (calc_hp example_table sp iv) as [h|]; [|discriminate].
  apply andb_prop in Hall as [Hc Hh].
  exists c, h. split; [done|]. split; [by apply exact_cp_check_sound|].
  split; [done | by apply exact_hp_check_sound].
Qed.

(** After the evolution and the power-up, the species in force is the
    evolved one. *)
Lemma species_is_sticky_witness :
  first_species (rev (snapshots evolved_powered)) = Some ivysaur.
Proof.
  apply (proj2 (proj2 (proj2 (species_is_sticky example_table (snapshots caught)
                         (EvolutionSnapshot ivysaur 20 15 600 0))))
           ivysaur [PowerUpSnapshot 64 27 200 2]); [reflexivity|].
  repeat constructor.
Defined.

Lemma evolved_run :
  run_snapshots example_table (snapshots evolved) = Ok evolved_state.
Proof.
  change (snapshots evolved)
    with (snapshots caught ++ [EvolutionSnapshot ivysaur 20 15 600 0]).
  rewrite run_snapshots_snoc, caught_run. vm_compute. reflexivity.
Qed.

(** The evolution of the captured creature leaves at most as many candidates
    as the capture. *)
Lemma candidates_never_grow_witness :
  (candidate_count evolved_state <= candidate_count caught_state)%nat.
Proof.
  apply (proj1 (proj2 (proj2 (proj2 (proj2 (candidates_never_grow example_table)))))
           (snapshots evolved_powered) (snapshots caught)
           (EvolutionSnapshot ivysaur 20 15 600 0) [PowerUpSnapshot 64 27 200 2]
           caught_state evolved_state).
  - split; [reflexivity | repeat constructor].
  - reflexivity.
  - discriminate.
  - exact caught_run.
  - exact evolved_run.
Defined.

(** No range on the empty answer. *)
Lemma percentage_range_spec_witness :
  percentage_range example_table impossible = Raise ValueError.
Proof.
  exact (proj1 (percentage_range_spec example_table impossible) impossible_calc_ivs).
Defined.

Example percentage_range_caught :
  percentage_range example_table caught
  = Ok (percentage (mkIV 1 0 0 11), percentage (mkIV 1 0 0 12)).
Proof.
  unfold percentage_range. rewrite caught_calc_ivs. vm_compute. reflexivity.
Qed.

(** No snapshot at all: the candidate set is read before it is assigned. *)
Lemma calc_ivs_needs_start_witness :
  calc_ivs example_table (mkPokemon [] None None) = Raise UnboundLocalError.
Proof.
  exact (proj1 (proj2 (calc_ivs_needs_start example_table (mkPokemon [] None None)))
           eq_refl).
Defined.

Example calc_ivs_power_up_first :
  calc_ivs example_table (mkPokemon [PowerUpSnapshot 12 13 200 1] None None)
  = Raise UnboundLocalError /\
  calc_ivs example_table (mkPokemon [EvolutionSnapshot ivysaur 20 15 600 0] None None)
  = Raise UnboundLocalError.
Proof. split; vm_compute; reflexivity. Qed.

(** * Further properties *)

(** ** Which appraisals accept a candidate *)

Lemma In_all_overall (o : OverallAppraisal.t) : In o all_overall.
Proof. destruct o; simpl; tauto. Qed.

Lemma In_all_top_iv (t : TopIV.t) : In t all_top_iv.
Proof. destruct t; simpl; tauto. Qed.

(** [valid_iv] in terms of the checks on the sum and on the largest stat. *)
Lemma valid_iv_by_parts (a : Appraisal) (iv : IV) :
  valid_iv a iv = true <->
  overall_accepts (overall a) (stat_sum iv) = true /\
  top_accepts (top_iv a) (top_stat iv) = true /\
  top_att a = (top_stat iv =? att iv) /\
  top_dfn a = (top_stat iv =? dfn iv) /\
  top_hp a = (top_stat iv =? sta iv).
Proof.
  rewrite valid_iv_true_iff. unfold overall_accepts, top_accepts, percentage.
  rewrite !andb_true_iff, !negb_true_iff. tauto.
Qed.

Lemma overall_bands_disjoint_all :
  forallb overall_bands_disjoint_at (seqZ 0 (3 * MAX_IV + 1)) = true.
Proof. vm_compute. reflexivity. Qed.

Lemma overall_band_exists_all :
  forallb overall_band_exists_at (seqZ 0 (3 * MAX_IV + 1)) = true.
Proof. vm_compute. reflexivity. Qed.

Lemma overall_accepts_unique (iv : IV) (o o' : OverallAppraisal.t) :
  iv_wf iv ->
  overall_accepts o (stat_sum iv) = true ->
  overall_accepts o' (stat_sum iv) = true ->
  o = o'.
Proof.
  intros Hwf Ho Ho'. pose proof overall_bands_disjoint_all as H.
  rewrite forallb_forall in H. specialize (H _ (stat_sum_range iv Hwf)).
  unfold overall_bands_disjoint_at in H. rewrite forallb_forall in H.
  specialize (H o (In_all_overall o)). rewrite forallb_forall in H.
  specialize (H o' (In_all_overall o')). rewrite Ho, Ho' in H. simpl in H.
  by apply bool_decide_eq_true in H.
Qed.

Lemma top_accepts_unique (top : Z) (t t' : TopIV.t) :
  top_accepts t top = true -> top_accepts t' top = true -> t = t'.
Proof.
  unfold top_accepts. rewrite !andb_true_iff, !negb_true_iff, !Z.gtb_ltb, !Z.ltb_ge.
  destruct t, t'; simpl; intros [? ?] [? ?]; try reflexivity; lia.
Qed.

Lemma top_accepts_exists (iv : IV) :
  iv_wf iv -> exists t, top_accepts t (top_stat iv) = true.
Proof.
  intros (Ha & Hd & Hs). unfold MAX_IV in *.
  assert (Htop : 0 <= top_stat iv <= 15) by (unfold top_stat; lia).
  unfold top_accepts.
  destruct (Z_le_gt_dec (top_stat iv) 7); [exists TopIV.norm|
  destruct (Z_le_gt_dec (top_stat iv) 12); [exists TopIV.trending|
  destruct (Z_le_gt_dec (top_stat iv) 14); [exists TopIV.impressed|exists TopIV.exceed]]];
    rewrite andb_true_iff, !negb_true_iff, Z.gtb_ltb, !Z.ltb_ge; simpl; lia.
Qed.

(** X1: at most one appraisal accepts a candidate: the overall bands are
    disjoint on the percentages that candidates have, the dominant-stat bands
    are disjoint, and the three flags are determined by the candidate. *)
Theorem appraisal_unique (a a' : Appraisal) (iv : IV) :
  iv_wf iv ->
  valid_iv a iv = true ->
  valid_iv a' iv = true ->
  a = a'.
Proof.
  intros Hwf (Ho & Ht & Ha & Hd & Hs)%valid_iv_by_parts
         (Ho' & Ht' & Ha' & Hd' & Hs')%valid_iv_by_parts.
  destruct a as [o fa fd fs t], a' as [o' fa' fd' fs' t']. simpl in *.
  rewrite (overall_accepts_unique iv o o' Hwf Ho Ho').
  rewrite (top_accepts_unique _ t t' Ht Ht').
  congruence.
Qed.

Lemma appraisal_unique_witness :
  iv_wf perfect_iv /\ perfect_appraisal = perfect_appraisal.
Proof.
  split; [exact perfect_iv_wf|].
  apply (appraisal_unique perfect_appraisal perfect_appraisal perfect_iv perfect_iv_wf);
    vm_compute; reflexivity.
Defined.

(** X2: the candidates that no appraisal accepts are those whose stats sum to 29
    or 30: their percentages, 64.44 and 66.67, fall between the band that
    ends at 64.4 and the band that starts at 66.7. *)
Theorem appraisal_gap (iv : IV) :
  iv_wf iv ->
  ((forall a, valid_iv a iv = false) <-> stat_sum iv = 29 \/ stat_sum iv = 30).
Proof.
  intros Hwf. pose proof overall_band_exists_all as H.
  rewrite forallb_forall in H. specialize (H _ (stat_sum_range iv Hwf)).
  unfold overall_band_exists_at in H. split.
  - intros Hall.
    destruct ((stat_sum iv =? 29) || (stat_sum iv =? 30)) eqn:Hs.
    { apply orb_true_iff in Hs as [?%Z.eqb_eq|?%Z.eqb_eq]; auto. }
    exfalso. apply existsb_exists in H as (o & _ & Ho).
    destruct (top_accepts_exists iv Hwf) as [t Ht].
    specialize (Hall (mkAppraisal o (top_stat iv =? att iv) (top_stat iv =? dfn iv)
                                  (top_stat iv =? sta iv) t)).
    apply not_true_iff_false in Hall. apply Hall.
    apply valid_iv_by_parts. simpl. done.
  - intros Hs a.
    assert (Hb : (stat_sum iv =? 29) || (stat_sum iv =? 30) = true).
    { apply orb_true_iff. rewrite !Z.eqb_eq. done. }
    rewrite Hb in H. rewrite forallb_forall in H.
    specialize (H (overall a) (In_all_overall _)). apply negb_true_iff in H.
    apply not_true_iff_false. intros (Ho & _)%valid_iv_by_parts. congruence.
Qed.

Lemma gap_iv_wf : iv_wf gap_iv.
Proof. unfold iv_wf, gap_iv, MAX_IV. simpl. lia. Defined.

Lemma appraisal_gap_witness :
  iv_wf gap_iv /\ valid_iv perfect_appraisal gap_iv = false.
Proof.
  split; [exact gap_iv_wf|].
  exact (proj2 (appraisal_gap gap_iv gap_iv_wf) (or_introl eq_refl) perfect_appraisal).
Defined.

(** ** More on [calc_ivs] *)

Section MoreInference.

Variable tbl : StatGrowthTable.

Lemma calc_hp_at_least_10 (sp : Species) (iv : IV) (h : Z) :
  calc_hp tbl sp iv = Ok h -> 10 <= h.
Proof.
  unfold calc_hp. intros H.
  apply bind_ok_inv in H as (r & _ & H). apply bind_ok_inv in H as (b & _ & H).
  apply bind_ok_inv in H as (n & _ & H). injection H as <-. lia.
Qed.

Lemma matches_some_true (sp : option Species) (cp hp : Z) (iv : IV) :
  matches tbl sp cp hp iv = Ok true ->
  exists s, sp = Some s /\ calc_cp tbl s iv = Ok cp /\ calc_hp tbl s iv = Ok hp.
Proof.
  destruct sp as [s|]; [|done]. intros H%matches_true_iff. eauto.
Qed.

(** What [calc_ivs] returns, in terms of the state after the loop. *)
Lemma calc_ivs_ok_inv (self : Pokemon) (X : gset IV) :
  calc_ivs tbl self = Ok X ->
  exists st Y,
    run_snapshots tbl (snapshots self) = Ok st /\
    l_possible_ivs st = Some Y /\
    X = match appraisal self with
        | Some a => filter (fun iv => valid_iv a iv = true) Y
        | None => Y
        end.
Proof.
  unfold calc_ivs. intros H. apply bind_ok_inv in H as (st & Hst & H).
  apply bind_ok_inv in H as (st' & Happ & H). exists st.
  destruct (appraisal self) as [a|]; simpl in Happ.
  - apply bind_ok_inv in Happ as (Y & HY & Happ). injection Happ as <-.
    simpl in H. injection H as <-. exists Y.
    destruct (l_possible_ivs st); [|done]. injection HY as ->. done.
  - injection Happ as <-. exists X.
    destruct (l_possible_ivs st); [|done]. injection H as ->. done.
Qed.

(** X3: an observed CP or HP below 10 in the last snapshot leaves no candidate:
    [calc_cp] and [calc_hp] return at least 10. *)
Theorem observation_below_floor_empties (self : Pokemon) (l : list Snapshot)
    (e : Snapshot) (X : gset IV) :
  snapshots self = l ++ [e] ->
  snapshot_cp e < 10 \/ snapshot_hp e < 10 ->
  calc_ivs tbl self = Ok X ->
  X = ∅.
Proof.
  intros Hs Hlow H. apply calc_ivs_ok_inv in H as (st & Y & Hrun & HY & ->).
  rewrite Hs, run_snapshots_snoc in Hrun.
  apply bind_ok_inv in Hrun as (st0 & _ & Hbody).
  apply loop_body_ok in Hbody as (Y0 & Y' & _ & HY' & ->).
  simpl in HY. injection HY as <-.
  assert (HYe : Y' = ∅).
  { apply set_eq. intros iv. split; [|by intros ?%not_elem_of_empty].
    intros Hiv. exfalso.
    apply set_filter_result_ok in HY' as (_ & HY' & _).
    apply HY' in Hiv as [_ (s & _ & Hc & Hh)%matches_some_true].
    apply calc_cp_at_least_10 in Hc. apply calc_hp_at_least_10 in Hh. lia. }
  subst Y'. destruct (appraisal self); [|done].
  apply set_eq. intros iv. rewrite elem_of_filter.
  split; [by intros [_ ?] | by intros ?%not_elem_of_empty].
Qed.

Lemma for_each_ok_bound (l : list Snapshot) (st : Locals) :
  l <> [] ->
  run_snapshots tbl l = Ok st ->
  all_bound st.
Proof.
  destruct l as [|s rest]; [done|]. intros _. unfold run_snapshots. simpl.
  intros H. apply bind_ok_inv in H as (st1 & H1 & H).
  assert (Hs : is_start s = true).
  { destruct s; [done| |]; unfold loop_body in H1; simpl in H1; discriminate. }
  pose proof (loop_body_bound tbl (mkLocals None None) s (or_introl Hs)) as Hb.
  rewrite H1 in Hb. pose proof (for_each_bound tbl rest st1 Hb) as Hb'.
  by rewrite H in Hb'.
Qed.

(** X4: every candidate that [calc_ivs] returns reproduces the CP and the HP of
    the last snapshot when they are simulated with the species that the
    property [species] returns, and is accepted by the appraisal if there is
    one. *)
Theorem calc_ivs_sound (self : Pokemon) (X : gset IV) :
  calc_ivs tbl self = Ok X ->
  exists l e sp,
    snapshots self = l ++ [e] /\
    species self = Some sp /\
    forall iv, iv ∈ X ->
      calc_cp tbl sp iv = Ok (snapshot_cp e) /\
      calc_hp tbl sp iv = Ok (snapshot_hp e) /\
      forall a, appraisal self = Some a -> valid_iv a iv = true.
Proof.
  intros H. apply calc_ivs_ok_inv in H as (st & Y & Hrun & HY & ->).
  unfold species.
  destruct (snapshots self) as [|e l _] using rev_ind.
  { injection Hrun as <-. done. }
  assert (Hne : l ++ [e] <> []).
  { intros Hn. by apply app_eq_nil in Hn as [_ ?]. }
  pose proof (for_each_ok_bound _ st Hne Hrun) as [[sp Hsp] _].
  rewrite (run_snapshots_species tbl _ st Hrun) in Hsp.
  exists l, e, sp. split; [done|]. split; [done|].
  rewrite run_snapshots_snoc in Hrun.
  apply bind_ok_inv in Hrun as (st0 & Hl & Hbody).
  apply loop_body_ok in Hbody as (Y0 & Y' & _ & HY' & ->).
  simpl in HY. injection HY as <-.
  assert (Hnext : next_species st0 e = Some sp).
  { rewrite <- Hsp, first_species_snoc. unfold next_species.
    by rewrite (run_snapshots_species tbl l st0 Hl). }
  rewrite Hnext in HY'. apply set_filter_result_ok in HY' as (_ & HY' & _).
  intros iv Hiv.
  assert (HivY : iv ∈ Y' /\ forall a, appraisal self = Some a -> valid_iv a iv = true).
  { destruct (appraisal self) as [a|].
    - apply elem_of_filter in Hiv as [Hv Hiv]. split; [done|]. by intros a' [= <-].
    - split; [done | by intros a' [=]]. }
  destruct HivY as [HivY Hval]. apply HY' in HivY as [_ Hm].
  apply matches_true_iff in Hm as [Hc Hh]. done.
Qed.

(** X5: the appraisal is applied once, to the candidates left by all the
    snapshots: the answer of an appraised record is the answer of the same
    record without appraisal, filtered by [valid_iv]; it raises when that one
    raises, and it is a subset of that one. *)
Theorem appraisal_filters_answer (self : Pokemon) (o : OverallAppraisal.t)
    (f1 f2 f3 : bool) (t : TopIV.t) :
  calc_ivs tbl (appraise self o f1 f2 f3 t) =
  (X <- calc_ivs tbl (mkPokemon (snapshots self) None (nickname self)) ;;
   Ok (filter (fun iv => valid_iv (mkAppraisal o f1 f2 f3 t) iv = true) X)) /\
  (forall X X',
     calc_ivs tbl (mkPokemon (snapshots self) None (nickname self)) = Ok X ->
     calc_ivs tbl (appraise self o f1 f2 f3 t) = Ok X' ->
     X' ⊆ X).
Proof.
  assert (Heq : calc_ivs tbl (appraise self o f1 f2 f3 t) =
                (X <- calc_ivs tbl (mkPokemon (snapshots self) None (nickname self)) ;;
                 Ok (filter (fun iv => valid_iv (mkAppraisal o f1 f2 f3 t) iv = true) X))).
  { unfold calc_ivs, appraise. simpl.
    destruct (run_snapshots tbl (snapshots self)) as [st|e]; simpl; [|done].
    by destruct (l_possible_ivs st). }
  split; [exact Heq|].
  intros X X' HX HX'. rewrite Heq, HX in HX'. simpl in HX'. injection HX' as <-.
  intros iv Hiv. by apply elem_of_filter in Hiv as [_ ?].
Qed.

Lemma loop_body_class (st : Locals) (x : Snapshot) :
  species_bound_with_candidates st ->
  match loop_body tbl st x with
  | Ok st' => species_bound_with_candidates st'
  | Raise e => calc_ivs_error e
  end.
Proof.
  intros Hinv. unfold loop_body.
  destruct (next_candidates tbl st x) as [X|e] eqn:HX; simpl.
  - assert (Hsp : exists sp, next_species st x = Some sp).
    { unfold next_species.
      destruct x as [sp cp hp dust half|cp hp dust k|sp cp hp dust k]; simpl; eauto.
      simpl in HX. destruct (l_possible_ivs st) as [X0|] eqn:HX0; [|done].
      destruct Hinv as [sp Hsp]; [by rewrite HX0|]. eauto. }
    destruct Hsp as [sp Hsp]. rewrite Hsp.
    destruct (observation_filter _ _ _ _ X) as [X'|e] eqn:HX'; simpl.
    + intros _. simpl. eauto.
    + apply set_filter_result_raise in HX' as (iv & _ & Hiv).
      apply matches_raise in Hiv as [->| ->]; unfold calc_ivs_error; auto.
  - destruct x as [sp cp hp dust half|cp hp dust k|sp cp hp dust k];
      simpl in HX; [done| |];
      (apply bind_raise_inv in HX as [HX|(X0 & _ & HX)];
       [ destruct (l_possible_ivs st); [done|]; injection HX as <-;
         unfold calc_ivs_error; auto
       | apply set_map_result_raise in HX as (iv & _ & ->%increment_level_raise);
         unfold calc_ivs_error; auto ]).
Qed.

Lemma for_each_class (l : list Snapshot) (st : Locals) :
  species_bound_with_candidates st ->
  match for_each (loop_body tbl) l st with
  | Ok st' => True
  | Raise e => calc_ivs_error e
  end.
Proof.
  revert st. induction l as [|x l IH]; simpl; intros st Hinv; [done|].
  pose proof (loop_body_class st x Hinv) as H.
  destruct (loop_body tbl st x) as [st'|e]; simpl; [by apply IH | done].
Qed.

Lemma calc_ivs_raise_class (self : Pokemon) (e : exn) :
  calc_ivs tbl self = Raise e -> calc_ivs_error e.
Proof.
  unfold calc_ivs, run_snapshots. intros H.
  pose proof (for_each_class (snapshots self) (mkLocals None None)) as Hc.
  destruct (for_each _ _ _) as [st|e']; simpl in H.
  - assert (He : e = UnboundLocalError); [|unfold calc_ivs_error; auto].
    destruct (appraisal self) as [a|]; simpl in H;
      destruct (l_possible_ivs st); simpl in H; congruence.
  - injection H as <-. apply Hc. by intros [? [=]].
Qed.

(** X6: [calc_ivs] raises nothing but [UnboundLocalError], the [ValueError] and
    [OverflowError] of the float arithmetic, and the error of
    [increment_level]; the [AttributeError] of a snapshot without species
    never escapes. *)
Theorem calc_ivs_exceptions (self : Pokemon) (e : exn) :
  calc_ivs tbl self = Raise e ->
  e = UnboundLocalError \/ e = ValueError \/ e = OverflowError \/ e = LevelOutOfRange.
Proof. apply calc_ivs_raise_class. Qed.

Lemma api_built_timeline (self : Pokemon) :
  api_built self -> is_timeline (snapshots self).
Proof.
  induction 1 as [sp cp hp dust name half|p cp hp dust k _ IH|p sp cp hp dust k _ IH
                 |p o f1 f2 f3 t _ IH|p name _ IH]; simpl; try done.
  - destruct (snapshots p) as [|s rest]; [done|]. destruct IH as [Hs Hrest].
    split; [done|]. apply Forall_app. split; [done|]. by constructor.
  - destruct (snapshots p) as [|s rest]; [done|]. destruct IH as [Hs Hrest].
    split; [done|]. apply Forall_app. split; [done|]. by constructor.
Qed.

(** X7: on a record built by the methods of the class, the snapshots are a
    [StartSnapshot] followed by power-ups and evolutions, and [calc_ivs]
    never raises [UnboundLocalError]: it returns a set, or raises an error of
    the float arithmetic or of [increment_level]. *)
Theorem api_built_calc_ivs (self : Pokemon) :
  api_built self ->
  is_timeline (snapshots self) /\
  forall e, calc_ivs tbl self = Raise e ->
            e = ValueError \/ e = OverflowError \/ e = LevelOutOfRange.
Proof.
  intros Hb. pose proof (api_built_timeline self Hb) as Ht. split; [done|].
  intros e He. pose proof (calc_ivs_raise_class self e He) as [->|Hc]; [|done].
  exfalso. unfold calc_ivs, run_snapshots in He.
  destruct (snapshots self) as [|s rest]; [done|]. destruct Ht as [Hs _].
  simpl in He.
  pose proof (loop_body_bound tbl (mkLocals None None) s (or_introl Hs)) as H1.
  destruct (loop_body tbl _ s) as [st1|e1]; simpl in He.
  - pose proof (for_each_bound tbl rest st1 H1) as H2.
    destruct (for_each _ rest st1) as [st2|e2]; simpl in He.
    + destruct H2 as [_ [X HX]].
      destruct (appraisal self); simpl in He; rewrite HX in He; discriminate.
    + injection He as ->. apply H2. by left.
  - injection He as ->. apply H1. by left.
Qed.

(** X8: a [StartSnapshot] later in the list starts the inference afresh: when the
    snapshots before it are processed without error, they have no effect on
    the answer. *)
Theorem start_snapshot_restarts (l1 l2 : list Snapshot) (sp : Species)
    (cp hp dust : Z) (half_levels : bool) (a : option Appraisal)
    (n : option string) (st1 : Locals) :
  run_snapshots tbl l1 = Ok st1 ->
  calc_ivs tbl (mkPokemon (l1 ++ StartSnapshot sp cp hp dust half_levels :: l2) a n)
  = calc_ivs tbl (mkPokemon (StartSnapshot sp cp hp dust half_levels :: l2) a n).
Proof.
  intros H. unfold calc_ivs. simpl. rewrite run_snapshots_app, H. reflexivity.
Qed.

(** X9: [percentage_range] fails exactly when [calc_ivs] fails, with the same
    exception, or when [calc_ivs] returns the empty set, with [ValueError]. *)
Theorem percentage_range_fails_iff (self : Pokemon) (e : exn) :
  percentage_range tbl self = Raise e <->
  calc_ivs tbl self = Raise e \/ (calc_ivs tbl self = Ok ∅ /\ e = ValueError).
Proof.
  unfold percentage_range. destruct (calc_ivs tbl self) as [X|e']; simpl.
  - destruct (elements X) as [|c l] eqn:Hel; simpl.
    + apply elements_empty_inv, leibniz_equiv in Hel. subst X. split.
      * intros [= <-]. by right.
      * intros [[=]|[_ ->]]. done.
    + split; [done|]. intros [[=]|[[= ->] _]]. by rewrite elements_empty in Hel.
  - split; [intros [= <-]; by left | intros [[= <-]|[[=] _]]; done].
Qed.

End MoreInference.

Lemma observation_below_floor_empties_witness :
  snapshot_cp (StartSnapshot bulbasaur 5 13 200 false) < 10 /\ (∅ : gset IV) = ∅.
Proof.
  split; [reflexivity|].
  exact (observation_below_floor_empties example_table impossible []
           (StartSnapshot bulbasaur 5 13 200 false) ∅ eq_refl (or_introl eq_refl)
           impossible_calc_ivs).
Defined.

Lemma calc_ivs_sound_witness :
  exists l e sp,
    snapshots caught = l ++ [e] /\
    species caught = Some sp /\
    forall iv, iv ∈ caught_candidates ->
      calc_cp example_table sp iv = Ok (snapshot_cp e) /\
      calc_hp example_table sp iv = Ok (snapshot_hp e) /\
      forall a, appraisal caught = Some a -> valid_iv a iv = true.
Proof.
  exact (calc_ivs_sound example_table caught caught_candidates caught_calc_ivs).
Defined.

Lemma calc_ivs_exceptions_witness :
  calc_ivs example_table (mkPokemon [] None None) = Raise UnboundLocalError /\
  (UnboundLocalError = UnboundLocalError \/ UnboundLocalError = ValueError \/
   UnboundLocalError = OverflowError \/ UnboundLocalError = LevelOutOfRange).
Proof.
  split; [reflexivity|].
  exact (calc_ivs_exceptions example_table (mkPokemon [] None None)
           UnboundLocalError eq_refl).
Defined.

Lemma api_built_evolved_powered : api_built evolved_powered.
Proof. repeat constructor. Qed.

Lemma api_built_calc_ivs_witness :
  api_built evolved_powered /\ is_timeline (snapshots evolved_powered).
Proof.
  split; [exact api_built_evolved_powered|].
  exact (proj1 (api_built_calc_ivs example_table evolved_powered
                  api_built_evolved_powered)).
Defined.

Lemma start_snapshot_restarts_witness :
  calc_ivs example_table recaught = calc_ivs example_table impossible.
Proof.
  exact (start_snapshot_restarts example_table (snapshots caught) [] bulbasaur
           5 13 200 false None None caught_state caught_run).
Defined.

(** ** Accessors *)

Section AccessorProperties.

Variable sm : SpeciesModule.

Lemma species_snoc (self : Pokemon) (e : Snapshot) (a : option Appraisal)
    (n : option string) :
  species (mkPokemon (snapshots self ++ [e]) a n) =
  match snapshot_species e with
  | Ok sp => Some sp
  | Raise _ => species self
  end.
Proof. unfold species. simpl. by rewrite rev_unit. Qed.

(** After a power-up or an evolution, [cp] and [hp] return the values just
    observed; a power-up keeps the species and an evolution sets it, and with
    it the name of a creature that has no nickname. *)
Theorem accessors_track_updates (self : Pokemon) (sp : Species) (c h d k : Z) :
  cp (power_up self c h d k) = Return c /\
  hp (power_up self c h d k) = Return h /\
  species (power_up self c h d k) = species self /\
  name sm (power_up self c h d k) = name sm self /\
  cp (evolve self sp c h d k) = Return c /\
  hp (evolve self sp c h d k) = Return h /\
  species (evolve self sp c h d k) = Some sp /\
  name sm (evolve self sp c h d k) =
    match nickname self with
    | Some n => Return n
    | None => Return (species_name sm sp)
    end.
Proof.
  unfold cp, hp, name, power_up, evolve. cbn [snapshots nickname appraisal].
  rewrite !last_snoc, !species_snoc. cbn [snapshot_species snapshot_cp snapshot_hp].
  repeat split.
Qed.

Lemma api_built_accessors_ok (self : Pokemon) :
  api_built self ->
  exists sp s, species self = Some sp /\ last (snapshots self) = Some s.
Proof.
  induction 1 as [sp0 c h d n half|p c h d k _ IH|p sp0 c h d k _ IH
                 |p o f1 f2 f3 t _ IH|p n _ IH].
  - exists sp0. eexists. split; reflexivity.
  - destruct IH as (sp & s & Hsp & _). exists sp. eexists.
    unfold power_up. cbn [snapshots]. by rewrite last_snoc, species_snoc.
  - exists sp0. eexists.
    unfold evolve. cbn [snapshots]. by rewrite last_snoc, species_snoc.
  - exact IH.
  - exact IH.
Qed.

(** X10: on a record built by the methods of the class no accessor fails: there is
    a species, a last CP, a last HP and a name. *)
Theorem api_built_accessors (self : Pokemon) :
  api_built self ->
  exists sp c h n,
    species self = Some sp /\
    cp self = Return c /\
    hp self = Return h /\
    name sm self = Return n.
Proof.
  intros (sp & s & Hsp & Hs)%api_built_accessors_ok.
  exists sp, (snapshot_cp s), (snapshot_hp s).
  unfold cp, hp, name. rewrite Hs, Hsp.
  destruct (nickname self) as [n|]; eauto.
Qed.

End AccessorProperties.

(** A record without snapshots has no CP, no HP, no species and no name. *)
Example empty_record_accessors :
  cp (mkPokemon [] None None) = Throw Py.IndexError /\
  hp (mkPokemon [] None None) = Throw Py.IndexError /\
  species (mkPokemon [] None None) = None /\
  name example_species (mkPokemon [] None None) = Throw Py.AttributeError.
Proof. repeat split. Qed.

Lemma api_built_accessors_witness :
  exists sp c h n,
    species evolved_powered = Some sp /\
    cp evolved_powered = Return c /\
    hp evolved_powered = Return h /\
    name example_species evolved_powered = Return n.
Proof.
  exact (api_built_accessors example_species evolved_powered api_built_evolved_powered).
Defined.

Example accessors_evolved_powered :
  species evolved_powered = Some ivysaur /\
  cp evolved_powered = Return 64 /\
  hp evolved_powered = Return 27 /\
  name example_species evolved_powered = Return "Ivysaur"%string.
Proof. vm_compute. done. Qed.

(** ** Serialisation of snapshots *)

Lemma has_key_true (dct : gmap string json) (k : string) :
  has_key dct k = true <-> is_Some (dct !! k).
Proof.
  unfold has_key. destruct (dct !! k) as [v|].
  - split; [by eexists | done].
  - split; [done | by intros [? ?]].
Qed.

(** A dictionary with as many entries as a list of distinct keys that it
    contains has no other key. *)
Lemma keys_exhaust (dct : gmap string json) (ks : list string) (k : string) :
  NoDup ks ->
  (forall k', k' ∈ ks -> is_Some (dct !! k')) ->
  size dct = length ks ->
  k ∉ ks ->
  dct !! k = None.
Proof.
  intros Hnd Hks Hsize Hk.
  assert (Hsub : (list_to_set ks : gset string) ⊆ dom dct).
  { intros k' Hk'%elem_of_list_to_set. by apply elem_of_dom, Hks. }
  assert (Heq : (list_to_set ks : gset string) = dom dct).
  { apply set_subseteq_size_eq; [done|].
    rewrite size_dom, size_list_to_set by done. lia. }
  apply not_elem_of_dom. rewrite <- Heq. by rewrite elem_of_list_to_set.
Qed.

Lemma start_json_lookups (n c h d half : json) :
  let m : gmap string json :=
    {[ "Species" := n; "CP" := c; "HP" := h; "Dust" := d; "Half levels" := half ]} in
  m !! "Species" = Some n /\ m !! "CP" = Some c /\ m !! "HP" = Some h /\
  m !! "Dust" = Some d /\ m !! "Half levels" = Some half /\
  m !! "Steps" = None /\ size m = 5%nat.
Proof. repeat split; vm_compute; reflexivity. Qed.

Lemma power_up_json_lookups (c h d k : json) :
  let m : gmap string json :=
    {[ "CP" := c; "HP" := h; "Dust" := d; "Steps" := k ]} in
  m !! "Species" = None /\ m !! "CP" = Some c /\ m !! "HP" = Some h /\
  m !! "Dust" = Some d /\ m !! "Half levels" = None /\
  m !! "Steps" = Some k /\ size m = 4%nat.
Proof. repeat split; vm_compute; reflexivity. Qed.

Lemma evolution_json_lookups (n c h d k : json) :
  let m : gmap string json :=
    {[ "Species" := n; "CP" := c; "HP" := h; "Dust" := d; "Steps" := k ]} in
  m !! "Species" = Some n /\ m !! "CP" = Some c /\ m !! "HP" = Some h /\
  m !! "Dust" = Some d /\ m !! "Half levels" = None /\
  m !! "Steps" = Some k /\ size m = 5%nat.
Proof. repeat split; vm_compute; reflexivity. Qed.

Section SerialisationProperties.

Variable sm : SpeciesModule.

Lemma decode_encode (r : RawSnapshot) :
  catalogued sm r -> decode_from_json sm (encode_for_json sm r) = Return r.
Proof.
  intros Hcat. unfold decode_from_json, has_key.
  destruct r as [sp c h d half|c h d k|sp c h d k]; simpl.
  - destruct (start_json_lookups (JStr (species_name sm sp)) c h d half)
      as (Hs & Hc & Hh & Hd & Hhalf & _ & _).
    unfold StartSnapshot_decode_from_json, getitem.
    rewrite Hhalf, Hs, Hc, Hh, Hd. simpl. by rewrite (Hcat sp eq_refl).
  - destruct (power_up_json_lookups c h d k) as (Hs & Hc & Hh & Hd & Hhalf & Hk & _).
    unfold PowerUpSnapshot_decode_from_json, getitem.
    by rewrite Hhalf, Hs, Hc, Hh, Hd, Hk.
  - destruct (evolution_json_lookups (JStr (species_name sm sp)) c h d k)
      as (Hs & Hc & Hh & Hd & Hhalf & Hk & _).
    unfold EvolutionSnapshot_decode_from_json, getitem.
    rewrite Hhalf, Hs, Hc, Hh, Hd, Hk. simpl. by rewrite (Hcat sp eq_refl).
Qed.

Lemma looks_like_encode (s : Snapshot) :
  catalogued sm (raw_of s) ->
  looks_like_json_obj sm (JDict (encode_for_json sm (raw_of s))) = Return true.
Proof.
  intros Hcat. unfold looks_like_json_obj, has_key.
  destruct s as [sp c h d half|c h d k|sp c h d k]; simpl.
  - destruct (start_json_lookups (JStr (species_name sm sp)) (JInt c) (JInt h)
                (JInt d) (JBool half)) as (Hs & Hc & Hh & Hd & Hhalf & _ & Hsize).
    unfold start_shape. rewrite Hc, Hh, Hd, Hsize, Hs, Hhalf. simpl.
    by rewrite (Hcat sp eq_refl).
  - destruct (power_up_json_lookups (JInt c) (JInt h) (JInt d) (JInt k))
      as (Hs & Hc & Hh & Hd & Hhalf & Hk & Hsize).
    unfold start_shape, power_up_shape. by rewrite Hc, Hh, Hd, Hsize, Hk.
  - destruct (evolution_json_lookups (JStr (species_name sm sp)) (JInt c) (JInt h)
                (JInt d) (JInt k)) as (Hs & Hc & Hh & Hd & Hhalf & Hk & Hsize).
    unfold start_shape, power_up_shape, evolution_shape.
    rewrite Hc, Hh, Hd, Hsize, Hs, Hhalf, Hk. simpl.
    by rewrite (Hcat sp eq_refl).
Qed.

(** X11: round trip: a snapshot whose species is in the catalog under its own name
    is encoded to a dictionary that [looks_like_json_obj] accepts and that
    [decode_from_json] decodes back to the snapshot. *)
Theorem snapshot_json_round_trip (s : Snapshot) :
  catalogued sm (raw_of s) ->
  looks_like_json_obj sm (JDict (encode_for_json sm (raw_of s))) = Return true /\
  decode_from_json sm (encode_for_json sm (raw_of s)) = Return (raw_of s).
Proof. intros H. split; [by apply looks_like_encode | by apply decode_encode]. Qed.

End SerialisationProperties.

Lemma nodup_power_up_keys : NoDup ["CP"; "HP"; "Dust"; "Steps"]%string.
Proof. apply (bool_decide_unpack _). vm_compute. exact I. Qed.

Lemma nodup_start_keys : NoDup ["Species"; "CP"; "HP"; "Dust"; "Half levels"]%string.
Proof. apply (bool_decide_unpack _). vm_compute. exact I. Qed.

Lemma nodup_evolution_keys : NoDup ["Species"; "CP"; "HP"; "Dust"; "Steps"]%string.
Proof. apply (bool_decide_unpack _). vm_compute. exact I. Qed.

Section ValidatorProperties.

Variable sm : SpeciesModule.

Lemma in_catalog_true (n : json) :
  in_catalog sm n = Return true ->
  exists s sp, n = JStr s /\ catalog sm !! s = Some sp.
Proof.
  destruct n; simpl; try discriminate. intros [= H].
  apply bool_decide_eq_true in H as [sp Hsp]. eauto.
Qed.

Lemma in_catalog_throw (n : json) (e : Py.exn) :
  in_catalog sm n = Throw e -> e = Py.TypeError /\ unhashable n = true.
Proof. destruct n; simpl; try discriminate; by intros [= <-]. Qed.

Lemma start_shape_true (dct : gmap string json) :
  start_shape sm dct = Return true ->
  size dct = 5%nat /\
  exists s sp half,
    dct !! "Species" = Some (JStr s) /\ catalog sm !! s = Some sp /\
    dct !! "Half levels" = Some half /\ isinstance_bool half = true.
Proof.
  unfold start_shape. destruct (size dct =? 5)%nat eqn:Hsize; [|discriminate].
  apply Nat.eqb_eq in Hsize. destruct (dct !! "Species") as [n|]; [|discriminate].
  destruct (in_catalog sm n) as [c|e] eqn:Hc; simpl; [|discriminate].
  destruct c; simpl; [|discriminate].
  apply in_catalog_true in Hc as (s & sp & -> & Hsp).
  destruct (dct !! "Half levels") as [half|]; [|discriminate].
  intros [= Hb]. split; [done|]. eauto 10.
Qed.

Lemma evolution_shape_true (dct : gmap string json) :
  evolution_shape sm dct = Return true ->
  size dct = 5%nat /\
  exists s sp k,
    dct !! "Species" = Some (JStr s) /\ catalog sm !! s = Some sp /\
    dct !! "Steps" = Some k /\ isinstance_int k = true.
Proof.
  unfold evolution_shape. destruct (size dct =? 5)%nat eqn:Hsize; [|discriminate].
  apply Nat.eqb_eq in Hsize. destruct (dct !! "Species") as [n|]; [|discriminate].
  destruct (in_catalog sm n) as [c|e] eqn:Hc; simpl; [|discriminate].
  destruct c; simpl; [|discriminate].
  apply in_catalog_true in Hc as (s & sp & -> & Hsp).
  destruct (dct !! "Steps") as [k|]; [|discriminate].
  intros [= Hb]. split; [done|]. eauto 10.
Qed.

Lemma power_up_shape_true (dct : gmap string json) :
  power_up_shape dct = true ->
  size dct = 4%nat /\ exists k, dct !! "Steps" = Some k /\ isinstance_int k = true.
Proof.
  unfold power_up_shape. intros [Hsize Hk]%andb_true_iff.
  apply Nat.eqb_eq in Hsize. destruct (dct !! "Steps") as [k|]; [eauto|done].
Qed.

Lemma shape_throw (dct : gmap string json) (e : Py.exn) :
  start_shape sm dct = Throw e \/ evolution_shape sm dct = Throw e ->
  e = Py.TypeError /\
  size dct = 5%nat /\
  exists n, dct !! "Species" = Some n /\ unhashable n = true.
Proof.
  unfold start_shape, evolution_shape.
  destruct (size dct =? 5)%nat eqn:Hsize; [|by intros [|]].
  apply Nat.eqb_eq in Hsize. destruct (dct !! "Species") as [n|]; [|by intros [|]].
  destruct (in_catalog sm n) as [c|e'] eqn:Hc; simpl; [by intros [|]|].
  apply in_catalog_throw in Hc as [-> Hn].
  intros [[= <-]|[= <-]]; eauto.
Qed.

(** What a dictionary that the validator accepts holds. *)
Lemma looks_like_true_inv (dct : gmap string json) :
  looks_like_json_obj sm (JDict dct) = Return true ->
  (exists c h d, dct !! "CP" = Some c /\ dct !! "HP" = Some h /\ dct !! "Dust" = Some d) /\
  ((size dct = 5%nat /\
    exists s sp half,
      dct !! "Species" = Some (JStr s) /\ catalog sm !! s = Some sp /\
      dct !! "Half levels" = Some half /\ isinstance_bool half = true) \/
   (size dct = 4%nat /\
    exists k, dct !! "Steps" = Some k /\ isinstance_int k = true) \/
   (size dct = 5%nat /\
    exists s sp k,
      dct !! "Species" = Some (JStr s) /\ catalog sm !! s = Some sp /\
      dct !! "Steps" = Some k /\ isinstance_int k = true)).
Proof.
  unfold looks_like_json_obj, has_key.
  destruct (dct !! "CP") as [c|]; [|discriminate].
  destruct (dct !! "HP") as [h|]; [|discriminate].
  destruct (dct !! "Dust") as [d|]; [|discriminate]. simpl.
  intros H. split; [by exists c, h, d|].
  destruct (start_shape sm dct) as [b|e] eqn:Hstart; simpl in H; [|discriminate].
  destruct b; [left; by apply start_shape_true|].
  destruct (power_up_shape dct) eqn:Hpu; [right; left; by apply power_up_shape_true|].
  destruct (evolution_shape sm dct) as [b|e] eqn:Hev; simpl in H; [|discriminate].
  destruct b; [|discriminate]. right; right. by apply evolution_shape_true.
Qed.

(** The decoding of an accepted dictionary, case by case. *)
Lemma looks_like_decode_cases (dct : gmap string json) :
  looks_like_json_obj sm (JDict dct) = Return true ->
  (exists s sp c h d half,
     dct !! "Species" = Some (JStr s) /\ catalog sm !! s = Some sp /\
     dct !! "CP" = Some c /\ dct !! "HP" = Some h /\ dct !! "Dust" = Some d /\
     dct !! "Half levels" = Some half /\ isinstance_bool half = true /\
     size dct = 5%nat /\
     decode_from_json sm dct = Return (RawStart sp c h d half)) \/
  (exists c h d k,
     dct !! "CP" = Some c /\ dct !! "HP" = Some h /\ dct !! "Dust" = Some d /\
     dct !! "Steps" = Some k /\ isinstance_int k = true /\
     size dct = 4%nat /\
     decode_from_json sm dct = Return (RawPowerUp c h d k)) \/
  (exists s sp c h d k,
     dct !! "Species" = Some (JStr s) /\ catalog sm !! s = Some sp /\
     dct !! "CP" = Some c /\ dct !! "HP" = Some h /\ dct !! "Dust" = Some d /\
     dct !! "Steps" = Some k /\ isinstance_int k = true /\
     size dct = 5%nat /\
     decode_from_json sm dct = Return (RawEvolution sp c h d k)).
Proof.
  intros ((c & h & d & Hc & Hh & Hd) & Hcases)%looks_like_true_inv.
  destruct Hcases as [(Hsize & s & sp & half & Hs & Hsp & Hhalf & Hb)
                     |[(Hsize & k & Hk & Hb)|(Hsize & s & sp & k & Hs & Hsp & Hk & Hb)]].
  - left. exists s, sp, c, h, d, half. repeat (split; [done|]).
    unfold decode_from_json, has_key, StartSnapshot_decode_from_json, getitem.
    rewrite Hhalf, Hs, Hc, Hh, Hd. simpl. by rewrite Hsp.
  - right; left. exists c, h, d, k. repeat (split; [done|]).
    assert (Hother : forall k', k' ∉ ["CP"; "HP"; "Dust"; "Steps"]%string ->
                                dct !! k' = None).
    { intros k'. apply keys_exhaust; [exact nodup_power_up_keys| |done].
      intros k0. rewrite !elem_of_cons, elem_of_nil.
      intros [->|[->|[->|[->|[]]]]]; by eexists. }
    unfold decode_from_json, has_key, PowerUpSnapshot_decode_from_json, getitem.
    rewrite (Hother "Half levels"), (Hother "Species"), Hc, Hh, Hd, Hk; [done| |];
      rewrite !elem_of_cons, elem_of_nil; intros [?|[?|[?|[?|[]]]]]; discriminate.
  - right; right. exists s, sp, c, h, d, k. repeat (split; [done|]).
    assert (Hother : dct !! "Half levels" = None).
    { apply (keys_exhaust dct ["Species"; "CP"; "HP"; "Dust"; "Steps"]%string);
        [exact nodup_evolution_keys| |done|].
      - intros k0. rewrite !elem_of_cons, elem_of_nil.
        intros [->|[->|[->|[->|[->|[]]]]]]; by eexists.
      - rewrite !elem_of_cons, elem_of_nil. intros [?|[?|[?|[?|[?|[]]]]]]; discriminate. }
    unfold decode_from_json, has_key, EvolutionSnapshot_decode_from_json, getitem.
    rewrite Hother, Hs, Hc, Hh, Hd, Hk. simpl. by rewrite Hsp.
Qed.

(** X12: the decoder never fails on a dictionary that the validator accepts, and
    what it returns is the kind of snapshot that the validator recognised: a
    start with a Boolean half-levels flag, or a power-up or an evolution whose
    step count is an integer or a Boolean. *)
Theorem looks_like_then_decodes (dct : gmap string json) :
  looks_like_json_obj sm (JDict dct) = Return true ->
  exists r,
    decode_from_json sm dct = Return r /\
    match r with
    | RawStart _ _ _ _ half_levels => isinstance_bool half_levels = true
    | RawPowerUp _ _ _ power_ups => isinstance_int power_ups = true
    | RawEvolution _ _ _ _ power_ups => isinstance_int power_ups = true
    end.
Proof.
  intros [(s & sp & c & h & d & half & H)|[(c & h & d & k & H)
         |(s & sp & c & h & d & k & H)]]%looks_like_decode_cases;
    eexists; (split; [apply H|]); simpl; apply H.
Qed.

Lemma map_eq_by_keys (m dct : gmap string json) (ks : list string) :
  NoDup ks ->
  size m = length ks ->
  size dct = length ks ->
  (forall k, k ∈ ks -> is_Some (dct !! k) /\ m !! k = dct !! k) ->
  m = dct.
Proof.
  intros Hnd Hm Hd Hks. apply map_eq. intros k.
  destruct (decide (k ∈ ks)) as [Hk|Hk]; [by apply Hks|].
  rewrite (keys_exhaust m ks k), (keys_exhaust dct ks k); try done.
  - intros k' Hk'. by apply Hks.
  - intros k' Hk'. destruct (Hks k' Hk') as [Hsome ->]. done.
Qed.

(** X13: when every species of the catalog is stored under its own name, encoding
    what the decoder returns on an accepted dictionary gives the dictionary
    back. *)
Theorem decode_then_encode (dct : gmap string json) :
  catalog_consistent sm ->
  looks_like_json_obj sm (JDict dct) = Return true ->
  exists r,
    decode_from_json sm dct = Return r /\ encode_for_json sm r = dct.
Proof.
  intros Hcons
    [(s & sp & c & h & d & half & Hs & Hsp & Hc & Hh & Hd & Hhalf & _ & Hsize & Hdec)
    |[(c & h & d & k & Hc & Hh & Hd & Hk & _ & Hsize & Hdec)
     |(s & sp & c & h & d & k & Hs & Hsp & Hc & Hh & Hd & Hk & _ & Hsize & Hdec)]]
    %looks_like_decode_cases;
    eexists; (split; [exact Hdec|]); simpl.
  - rewrite (Hcons s sp Hsp).
    destruct (start_json_lookups (JStr s) c h d half)
      as (Ls & Lc & Lh & Ld & Lhalf & _ & Lsize).
    apply (map_eq_by_keys _ dct ["Species"; "CP"; "HP"; "Dust"; "Half levels"]%string);
      [exact nodup_start_keys|done|done|].
    intros k0. rewrite !elem_of_cons, elem_of_nil.
    intros [->|[->|[->|[->|[->|[]]]]]];
      [rewrite Ls, Hs|rewrite Lc, Hc|rewrite Lh, Hh|rewrite Ld, Hd|rewrite Lhalf, Hhalf];
      split; [by eexists|done| by eexists|done| by eexists|done| by eexists|done
             | by eexists|done].
  - destruct (power_up_json_lookups c h d k) as (_ & Lc & Lh & Ld & _ & Lk & Lsize).
    apply (map_eq_by_keys _ dct ["CP"; "HP"; "Dust"; "Steps"]%string);
      [exact nodup_power_up_keys|done|done|].
    intros k0. rewrite !elem_of_cons, elem_of_nil.
    intros [->|[->|[->|[->|[]]]]];
      [rewrite Lc, Hc|rewrite Lh, Hh|rewrite Ld, Hd|rewrite Lk, Hk];
      split; [by eexists|done| by eexists|done| by eexists|done| by eexists|done].
  - rewrite (Hcons s sp Hsp).
    destruct (evolution_json_lookups (JStr s) c h d k)
      as (Ls & Lc & Lh & Ld & _ & Lk & Lsize).
    apply (map_eq_by_keys _ dct ["Species"; "CP"; "HP"; "Dust"; "Steps"]%string);
      [exact nodup_evolution_keys|done|done|].
    intros k0. rewrite !elem_of_cons, elem_of_nil.
    intros [->|[->|[->|[->|[->|[]]]]]];
      [rewrite Ls, Hs|rewrite Lc, Hc|rewrite Lh, Hh|rewrite Ld, Hd|rewrite Lk, Hk];
      split; [by eexists|done| by eexists|done| by eexists|done| by eexists|done
             | by eexists|done].
Qed.

(** X14: the validator raises exactly on a dictionary of five entries that has the
    keys CP, HP, Dust and Species and whose species is a list or a
    dictionary: hashing it raises [TypeError]. *)
Theorem looks_like_raises_iff (v : json) (e : Py.exn) :
  looks_like_json_obj sm v = Throw e <->
  e = Py.TypeError /\
  exists dct n,
    v = JDict dct /\
    has_key dct "CP" = true /\ has_key dct "HP" = true /\ has_key dct "Dust" = true /\
    size dct = 5%nat /\
    dct !! "Species" = Some n /\
    unhashable n = true.
Proof.
  split.
  - destruct v as [| | | | | |dct]; simpl; try discriminate.
    destruct (has_key dct "CP") eqn:Hc; [|discriminate].
    destruct (has_key dct "HP") eqn:Hh; [|discriminate].
    destruct (has_key dct "Dust") eqn:Hd; [|discriminate]. simpl.
    intros H.
    assert (Hthrow : start_shape sm dct = Throw e \/ evolution_shape sm dct = Throw e).
    { destruct (start_shape sm dct) as [b|e'] eqn:Hstart; simpl in H;
        [|left; congruence].
      destruct b; [discriminate|]. destruct (power_up_shape dct); [discriminate|].
      destruct (evolution_shape sm dct) as [b|e'] eqn:Hev; simpl in H;
        [by destruct b | right; congruence]. }
    apply shape_throw in Hthrow as (-> & Hsize & n & Hn & Hun).
    split; [done|]. exists dct, n. repeat (split; [done|]). done.
  - intros (-> & dct & n & -> & Hc & Hh & Hd & Hsize & Hn & Hun). simpl.
    rewrite Hc, Hh, Hd. simpl. unfold start_shape. rewrite Hsize, Hn. simpl.
    by destruct n.
Qed.

(** X15: the validator never looks at the values stored under CP, HP and Dust:
    replacing one of them by any value does not change its answer. *)
Theorem looks_like_ignores_observed_values (dct : gmap string json) (k : string)
    (v : json) :
  k = "CP"%string \/ k = "HP"%string \/ k = "Dust"%string ->
  is_Some (dct !! k) ->
  looks_like_json_obj sm (JDict (<[k := v]> dct)) = looks_like_json_obj sm (JDict dct).
Proof.
  intros Hk [v0 Hv0].
  assert (Hsize : size (<[k := v]> dct) = size dct).
  { apply map_size_insert_Some. by eexists. }
  assert (Hkey : forall k', has_key (<[k := v]> dct) k' = has_key dct k').
  { intros k'. unfold has_key. destruct (decide (k = k')) as [<-|Hne].
    - by rewrite lookup_insert_eq, Hv0.
    - by rewrite lookup_insert_ne. }
  assert (Hother : forall k', k' <> "CP"%string -> k' <> "HP"%string ->
                              k' <> "Dust"%string ->
                              <[k := v]> dct !! k' = dct !! k').
  { intros k' H1 H2 H3. apply lookup_insert_ne. destruct Hk as [->|[->| ->]]; done. }
  unfold looks_like_json_obj, start_shape, power_up_shape, evolution_shape.
  rewrite !Hkey, Hsize, !Hother by discriminate. reflexivity.
Qed.

Lemma not_known_key (k : string) :
  k ∉ known_keys ->
  k <> "Species"%string /\ k <> "CP"%string /\ k <> "HP"%string /\
  k <> "Dust"%string /\ k <> "Half levels"%string /\ k <> "Steps"%string.
Proof.
  unfold known_keys. rewrite !elem_of_cons, elem_of_nil. intros H.
  repeat split; intros ->; apply H; tauto.
Qed.

Lemma decode_insert_unknown (dct : gmap string json) (k : string) (v : json) :
  k ∉ known_keys ->
  decode_from_json sm (<[k := v]> dct) = decode_from_json sm dct.
Proof.
  intros (H1 & H2 & H3 & H4 & H5 & H6)%not_known_key.
  unfold decode_from_json, has_key, StartSnapshot_decode_from_json,
    PowerUpSnapshot_decode_from_json, EvolutionSnapshot_decode_from_json, getitem.
  by rewrite !lookup_insert_ne by done.
Qed.

(** X16: an entry under an unknown key makes the validator reject a dictionary
    that it accepted, while the decoder ignores the entry. *)
Theorem unknown_key_rejected_but_decoded (dct : gmap string json) (k : string)
    (v : json) :
  looks_like_json_obj sm (JDict dct) = Return true ->
  k ∉ known_keys ->
  looks_like_json_obj sm (JDict (<[k := v]> dct)) = Return false /\
  decode_from_json sm (<[k := v]> dct) = decode_from_json sm dct.
Proof.
  intros Hacc Hk. split; [|by apply decode_insert_unknown].
  pose proof (not_known_key k Hk) as (H1 & H2 & H3 & H4 & H5 & H6).
  assert (Hkeys : has_key (<[k := v]> dct) "CP" = true /\
                  has_key (<[k := v]> dct) "HP" = true /\
                  has_key (<[k := v]> dct) "Dust" = true).
  { apply looks_like_true_inv in Hacc as ((c & h & d & Hc & Hh & Hd) & _).
    unfold has_key. rewrite !lookup_insert_ne by done. by rewrite Hc, Hh, Hd. }
  destruct Hkeys as (Kc & Kh & Kd).
  unfold looks_like_json_obj. rewrite Kc, Kh, Kd. simpl.
  unfold start_shape, power_up_shape, evolution_shape.
  apply looks_like_decode_cases in Hacc
    as [(s & sp & c & h & d & half & Hs & _ & Hc & Hh & Hd & Hhalf & _ & Hsize & _)
       |[(c & h & d & n & Hc & Hh & Hd & Hn & _ & Hsize & _)
        |(s & sp & c & h & d & n & Hs & _ & Hc & Hh & Hd & Hn & _ & Hsize & _)]].
  - assert (Hnone : dct !! k = None).
    { apply (keys_exhaust dct ["Species"; "CP"; "HP"; "Dust"; "Half levels"]%string);
        [exact nodup_start_keys| |done|].
      - intros k0. rewrite !elem_of_cons, elem_of_nil.
        intros [->|[->|[->|[->|[->|[]]]]]]; by eexists.
      - rewrite !elem_of_cons, elem_of_nil. intros [?|[?|[?|[?|[?|[]]]]]]; done. }
    rewrite (map_size_insert_None _ _ _ Hnone), Hsize. done.
  - assert (Hother : forall k', k' ∉ ["CP"; "HP"; "Dust"; "Steps"]%string ->
                                dct !! k' = None).
    { intros k'. apply keys_exhaust; [exact nodup_power_up_keys| |done].
      intros k0. rewrite !elem_of_cons, elem_of_nil.
      intros [->|[->|[->|[->|[]]]]]; by eexists. }
    assert (Hnone : dct !! k = None).
    { apply Hother. rewrite !elem_of_cons, elem_of_nil.
      intros [?|[?|[?|[?|[]]]]]; done. }
    assert (Hspecies : dct !! "Species" = None).
    { apply Hother. rewrite !elem_of_cons, elem_of_nil.
      intros [?|[?|[?|[?|[]]]]]; discriminate. }
    rewrite (map_size_insert_None _ _ _ Hnone), Hsize.
    rewrite !lookup_insert_ne by done. rewrite Hspecies. done.
  - assert (Hnone : dct !! k = None).
    { apply (keys_exhaust dct ["Species"; "CP"; "HP"; "Dust"; "Steps"]%string);
        [exact nodup_evolution_keys| |done|].
      - intros k0. rewrite !elem_of_cons, elem_of_nil.
        intros [->|[->|[->|[->|[->|[]]]]]]; by eexists.
      - rewrite !elem_of_cons, elem_of_nil. intros [?|[?|[?|[?|[?|[]]]]]]; done. }
    rewrite (map_size_insert_None _ _ _ Hnone), Hsize. done.
Qed.

End ValidatorProperties.

Lemma example_species_consistent : catalog_consistent example_species.
Proof.
  intros n sp. unfold example_species. simpl.
  intros [[<- <-]|[_ H]]%lookup_insert_Some; [reflexivity|].
  apply lookup_insert_Some in H as [[<- <-]|[_ H]]; [reflexivity|].
  apply lookup_singleton_Some in H as [<- <-]. reflexivity.
Qed.

Lemma catalogued_start : catalogued example_species
                           (raw_of (StartSnapshot bulbasaur 12 13 200 false)).
Proof. intros sp [= <-]. vm_compute. reflexivity. Qed.

Lemma snapshot_json_round_trip_witness :
  decode_from_json example_species
    (encode_for_json example_species
       (raw_of (StartSnapshot bulbasaur 12 13 200 false)))
  = Return (raw_of (StartSnapshot bulbasaur 12 13 200 false)).
Proof.
  exact (proj2 (snapshot_json_round_trip example_species
                  (StartSnapshot bulbasaur 12 13 200 false) catalogued_start)).
Defined.

Lemma boolean_steps_accepted :
  looks_like_json_obj example_species (JDict boolean_steps) = Return true.
Proof. vm_compute. reflexivity. Qed.

(** A step count that is the Boolean [True] is accepted and decoded. *)
Lemma looks_like_then_decodes_witness :
  exists r,
    decode_from_json example_species boolean_steps = Return r /\
    match r with
    | RawStart _ _ _ _ half_levels => isinstance_bool half_levels = true
    | RawPowerUp _ _ _ power_ups => isinstance_int power_ups = true
    | RawEvolution _ _ _ _ power_ups => isinstance_int power_ups = true
    end.
Proof.
  exact (looks_like_then_decodes example_species boolean_steps boolean_steps_accepted).
Defined.

Example boolean_steps_decoded :
  decode_from_json example_species boolean_steps
  = Return (RawPowerUp (JInt 64) (JInt 27) (JInt 200) (JBool true)).
Proof. vm_compute. reflexivity. Qed.

Lemma decode_then_encode_witness :
  exists r,
    decode_from_json example_species boolean_steps = Return r /\
    encode_for_json example_species r = boolean_steps.
Proof.
  exact (decode_then_encode example_species boolean_steps example_species_consistent
           boolean_steps_accepted).
Defined.

Example looks_like_list_species :
  looks_like_json_obj example_species (JDict list_species) = Throw Py.TypeError.
Proof. vm_compute. reflexivity. Qed.

Lemma looks_like_ignores_observed_values_witness :
  looks_like_json_obj example_species
    (JDict (<["CP" := JStr "many"]> boolean_steps))
  = looks_like_json_obj example_species (JDict boolean_steps).
Proof.
  apply (looks_like_ignores_observed_values example_species boolean_steps "CP"
           (JStr "many")); [by left|].
  vm_compute. by eexists.
Defined.

Lemma unknown_key_rejected_but_decoded_witness :
  looks_like_json_obj example_species (JDict (<["Note" := JNone]> boolean_steps))
  = Return false /\
  decode_from_json example_species (<["Note" := JNone]> boolean_steps)
  = decode_from_json example_species boolean_steps.
Proof.
  apply (unknown_key_rejected_but_decoded example_species boolean_steps "Note" JNone
           boolean_steps_accepted).
  unfold known_keys. rewrite !elem_of_cons, elem_of_nil.
  intros [?|[?|[?|[?|[?|[?|[]]]]]]]; discriminate.
Defined.

(** ** The validator of whole records *)

Section DocumentValidator.

Variable sm : SpeciesModule.

Lemma all_look_like_true (l : list json) :
  all_look_like sm l = Return true <->
  Forall (fun x => looks_like_json_obj sm x = Return true) l.
Proof.
  induction l as [|x l IH]; cbn [all_look_like].
  - split; [by constructor | done].
  - rewrite Forall_cons.
    destruct (looks_like_json_obj sm x) as [b|e]; cbn [and_then].
    + destruct b.
      * rewrite IH. tauto.
      * split; [done | by intros [? _]].
    + split; [done | by intros [? _]].
Qed.

Lemma all_look_like_throw (l1 l2 : list json) (x : json) (e : Py.exn) :
  Forall (fun x => looks_like_json_obj sm x = Return true) l1 ->
  looks_like_json_obj sm x = Throw e ->
  all_look_like sm (l1 ++ x :: l2) = Throw e.
Proof.
  induction 1 as [|y l1 Hy _ IH]; cbn [app all_look_like]; intros Hx.
  - by rewrite Hx.
  - rewrite Hy. cbn [and_then]. by apply IH.
Qed.

(** The validator of snapshots raises nothing but [TypeError]. *)
Lemma looks_like_json_obj_throws (v : json) (e : Py.exn) :
  looks_like_json_obj sm v = Throw e -> e = Py.TypeError.
Proof.
  destruct v as [| | | | | |dct]; simpl; try discriminate.
  destruct (has_key dct "CP"); [|discriminate].
  destruct (has_key dct "HP"); [|discriminate].
  destruct (has_key dct "Dust"); [|discriminate]. simpl.
  intros H.
  assert (Hthrow : start_shape sm dct = Throw e \/ evolution_shape sm dct = Throw e).
  { destruct (start_shape sm dct) as [b|e'] eqn:Hstart; simpl in H;
      [|left; congruence].
    destruct b; [discriminate|]. destruct (power_up_shape dct); [discriminate|].
    destruct (evolution_shape sm dct) as [b|e'] eqn:Hev; simpl in H;
      [by destruct b | right; congruence]. }
  by apply shape_throw in Hthrow as (-> & _).
Qed.

Lemma all_look_like_throws (l : list json) (e : Py.exn) :
  all_look_like sm l = Throw e -> e = Py.TypeError.
Proof.
  induction l as [|x l IH]; cbn [all_look_like]; [discriminate|].
  destruct (looks_like_json_obj sm x) as [b|e'] eqn:Hx; cbn [and_then].
  - destruct b; [exact IH | discriminate].
  - intros [= <-]. by apply looks_like_json_obj_throws in Hx.
Qed.

Lemma iter_json_throws (v : json) (e : Py.exn) :
  iter_json v = Throw e -> e = Py.TypeError.
Proof. destruct v; simpl; congruence. Qed.

(** X17: with [appraisal.py] as it is, [Pokemon.looks_like_json_dct] never
    returns [True].  It raises [AttributeError] exactly when the dictionary
    has three entries, a nickname that is [None] or a string, and a value
    under Snapshots that can be iterated and whose items are all accepted by
    [Snapshot.looks_like_json_obj], whether or not the key Appraisal is
    there; the only other exception that escapes is [TypeError]. *)
Theorem looks_like_json_dct_never_accepts (dct : gmap string json) :
  looks_like_json_dct sm dct <> Return true /\
  (looks_like_json_dct sm dct = Throw Py.AttributeError <->
   size dct = 3%nat /\
   exists n snaps l,
     dct !! "Nickname" = Some n /\ nickname_ok n = true /\
     dct !! "Snapshots" = Some snaps /\ iter_json snaps = Return l /\
     Forall (fun x => looks_like_json_obj sm x = Return true) l) /\
  (forall e, looks_like_json_dct sm dct = Throw e ->
             e = Py.AttributeError \/ e = Py.TypeError).
Proof.
  unfold looks_like_json_dct, looks_like_json_dct_body, getitem,
    Appraisal_looks_like_json_obj.
  destruct (size dct =? 3)%nat eqn:Hsize.
  2:{ apply Nat.eqb_neq in Hsize. repeat split; try done. by intros [? _]. }
  apply Nat.eqb_eq in Hsize.
  destruct (dct !! "Nickname") as [n|] eqn:Hn; simpl.
  2:{ repeat split; try done. by intros (_ & ? & ? & ? & ? & _). }
  destruct (nickname_ok n) eqn:Hok.
  2:{ repeat split; try done. intros (_ & ? & ? & ? & [= <-] & ? & _). congruence. }
  destruct (dct !! "Snapshots") as [snaps|] eqn:Hs; simpl.
  2:{ repeat split; try done. by intros (_ & ? & ? & ? & _ & _ & ? & _). }
  destruct (iter_json snaps) as [l|e] eqn:Hl; simpl.
  2:{ apply iter_json_throws in Hl as Hty. subst e. repeat split; try done.
      - intros (_ & ? & ? & ? & _ & _ & [= <-] & ? & _). congruence.
      - intros e [= <-]. by right. }
  destruct (all_look_like sm l) as [b|e] eqn:Hall; simpl.
  2:{ apply all_look_like_throws in Hall as Hty. subst e. repeat split; try done.
      - intros (_ & ? & ? & l' & _ & _ & [= <-] & Hl' & Hf).
        apply all_look_like_true in Hf. congruence.
      - intros e [= <-]. by right. }
  destruct b.
  - apply all_look_like_true in Hall. repeat split; try done.
    + by exists n, snaps, l.
    + intros e [= <-]. by left.
  - repeat split; try done.
    intros (_ & ? & ? & l' & _ & _ & [= <-] & Hl' & Hf).
    apply all_look_like_true in Hf. congruence.
Qed.

(** X18: the [TypeError] of a snapshot whose species cannot be hashed escapes
    [Pokemon.looks_like_json_dct], which catches [KeyError] only: when the
    snapshots before it are accepted, the validator raises instead of
    returning [False]. *)
Theorem looks_like_json_dct_type_error (dct : gmap string json) (n : json)
    (l1 l2 : list json) (x : json) :
  size dct = 3%nat ->
  dct !! "Nickname" = Some n ->
  nickname_ok n = true ->
  dct !! "Snapshots" = Some (JList (l1 ++ x :: l2)) ->
  Forall (fun x => looks_like_json_obj sm x = Return true) l1 ->
  looks_like_json_obj sm x = Throw Py.TypeError ->
  looks_like_json_dct sm dct = Throw Py.TypeError.
Proof.
  intros Hsize Hn Hok Hs Hl1 Hx.
  unfold looks_like_json_dct, looks_like_json_dct_body, getitem.
  rewrite Hsize, Hn. simpl. rewrite Hok, Hs. simpl.
  by rewrite (all_look_like_throw l1 l2 x _ Hl1 Hx).
Qed.

End DocumentValidator.

Lemma looks_like_json_dct_never_accepts_witness :
  looks_like_json_dct example_species empty_document = Throw Py.AttributeError.
Proof.
  apply (proj1 (proj2 (looks_like_json_dct_never_accepts example_species empty_document))).
  split; [vm_compute; reflexivity|].
  exists JNone, (JList []), [].
  repeat split; try (vm_compute; reflexivity). constructor.
Defined.

(** The method is looked up before the key Appraisal is read: a document
    without that key raises too, instead of being rejected. *)
Example looks_like_json_dct_without_appraisal :
  no_appraisal_document !! "Appraisal" = None /\
  looks_like_json_dct example_species no_appraisal_document = Throw Py.AttributeError.
Proof. split; vm_compute; reflexivity. Qed.

Lemma looks_like_json_dct_type_error_witness :
  looks_like_json_dct example_species bad_document = Throw Py.TypeError.
Proof.
  apply (looks_like_json_dct_type_error example_species
           bad_document JNone [JDict boolean_steps] [] (JDict list_species));
    try (vm_compute; reflexivity).
  constructor; [exact boolean_steps_accepted | constructor].
Defined.
